(** * NER data preparation: corpus parser, label alignment, dataset container
      and split/merge pipeline of [dataset.py]

    The development embeds the pure part of [dataset.py] and states the
    properties of the specification over it.

    - Python [str] is [string]; Python lists are [list]; the [dict]
      [tag2id] is a [gmap string nat].
    - A Python call that may raise returns a [result]; exceptions keep their
      Python names.
    - The sub-word tokenizer, the table loaders and scikit-learn's
      [train_test_split] are external collaborators: they are section
      variables of the code that calls them, and a statement that needs
      part of their documented contract takes it as a hypothesis
      ([rejects_nonpositive_train_size]).
    - The fractions [val_size] and [test_size] are exact rationals. *)

From Stdlib Require Import ZArith QArith Qround Lqa Ascii.
From stdpp Require Import gmap strings list fin_maps.

Local Open Scope Z_scope.
Local Open Scope nat_scope.

(** ** Python runtime: exceptions, indexing, string methods *)

Inductive exn : Type :=
  | IndexError
  | KeyError
  | TypeError
  | ValueError
  | ZeroDivisionError
  | IOError.

Inductive result (A : Type) : Type :=
  | Ok (a : A)
  | Raise (e : exn).

Arguments Ok {A} a.
Arguments Raise {A} e.

#[global] Instance result_ret : MRet result := λ A a, Ok a.

#[global] Instance result_bind : MBind result := λ A B k r,
  match r with
  | Ok a => k a
  | Raise e => Raise e
  end.

Definition succeeds {A} (r : result A) : Prop := ∃ a, r = Ok a.
Definition fails {A} (r : result A) : Prop := ∃ e, r = Raise e.

(** [try: ... except: ...] with a bare [except] catches every exception. *)
Definition try_except {A} (body : result A) (handler : A) : A :=
  match body with
  | Ok a => a
  | Raise _ => handler
  end.

(** A list comprehension whose element expression may raise. *)
Fixpoint comprehension {A B} (f : A → result B) (l : list A) : result (list B) :=
  match l with
  | [] => Ok []
  | x :: xs => y ← f x; ys ← comprehension f xs; Ok (y :: ys)
  end.

(** [l[idx]] for an integer index: a negative index counts from the end,
    and an index outside [-len, len) raises [IndexError]. *)
Definition list_getitem {A} (l : list A) (idx : Z) : result A :=
  let n := Z.of_nat (length l) in
  let i := if (idx <? 0)%Z then (idx + n)%Z else idx in
  if ((0 <=? i) && (i <? n))%Z then
    match l !! Z.to_nat i with
    | Some x => Ok x
    | None => Raise IndexError
    end
  else Raise IndexError.

(** [d[k]] on a dict. *)
Definition dict_getitem {V} (d : gmap string V) (k : string) : result V :=
  match d !! k with
  | Some v => Ok v
  | None => Raise KeyError
  end.

(** [l[a:b]] for non-negative bounds. *)
Definition slice {A} (l : list A) (a b : nat) : list A := drop a (take b l).

Definition newline : ascii := ascii_of_nat 10.
Definition tab : ascii := ascii_of_nat 9.
Definition space : ascii := ascii_of_nat 32.

Definition nl : string := String newline "".

(** [s.split(sep)] for a one-character separator: every occurrence cuts,
    empty fields are kept, and the result always has at least one field. *)
Fixpoint split (sep : ascii) (s : string) : list string :=
  match s with
  | EmptyString => [EmptyString]
  | String c s' =>
      if decide (c = sep) then EmptyString :: split sep s'
      else match split sep s' with
           | f :: fs => String c f :: fs
           | [] => [String c EmptyString]
           end
  end.

(** [sep.join(l)]. *)
Fixpoint join (sep : string) (l : list string) : string :=
  match l with
  | [] => EmptyString
  | [x] => x
  | x :: xs => x +:+ sep +:+ join sep xs
  end.

Fixpoint lstrip (c : ascii) (s : string) : string :=
  match s with
  | EmptyString => EmptyString
  | String a s' => if decide (a = c) then lstrip c s' else s
  end.

Fixpoint rstrip (c : ascii) (s : string) : string :=
  match s with
  | EmptyString => EmptyString
  | String a s' =>
      match rstrip c s' with
      | EmptyString => if decide (a = c) then EmptyString else String a EmptyString
      | r => String a r
      end
  end.

(** [s.strip(c)] for a one-character set. *)
Definition strip (c : ascii) (s : string) : string := rstrip c (lstrip c s).

Fixpoint starts_with (p s : string) : bool :=
  match p, s with
  | EmptyString, _ => true
  | String a p', String b s' => bool_decide (a = b) && starts_with p' s'
  | String _ _, EmptyString => false
  end.

(** [s.replace(old, new)] for a non-empty [old]: occurrences are replaced
    left to right without overlap.  [skip] counts the characters of a
    matched occurrence still to be passed over. *)
Fixpoint replace_from (old new : string) (skip : nat) (s : string) : string :=
  match s with
  | EmptyString => EmptyString
  | String c s' =>
      match skip with
      | S k => replace_from old new k s'
      | O =>
          if starts_with old s
          then new +:+ replace_from old new (String.length old - 1) s'
          else String c (replace_from old new 0 s')
      end
  end.

Definition replace (old new s : string) : string := replace_from old new 0 s.

(** [file.readlines()] on the text of the file (line terminators already
    translated to newline, as a text-mode [open] does): the content cut
    after every newline, each line keeping its terminator; a last line
    without terminator is kept too. *)
Fixpoint readlines_from (cur : string) (s : string) : list string :=
  match s with
  | EmptyString => match cur with EmptyString => [] | _ => [cur] end
  | String c s' =>
      if decide (c = newline)
      then (cur +:+ nl) :: readlines_from EmptyString s'
      else readlines_from (cur +:+ String c EmptyString) s'
  end.

Definition readlines (content : string) : list string :=
  readlines_from EmptyString content.

Definition nul : ascii := ascii_of_nat 0.
Definition carriage_return : ascii := ascii_of_nat 13.

(** [np.array(lines)]: numpy keeps strings in fixed-width cells padded with
    NUL characters, so the NUL characters that end a string are not part of
    the value the array holds; a string made of NUL characters only is the
    empty string of the array. *)
Definition np_unpad (s : string) : string := rstrip nul s.

Definition np_array (lines : list string) : list string := np_unpad <$> lines.

(** [np.where(np.array(lines) == v)[0]]: the positions at which the array
    holds [v], in increasing order. *)
Definition np_where_eq (lines : list string) (v : string) : list nat :=
  filter (λ i, np_array lines !! i = Some (np_unpad v))
    (seq 0 (length (np_array lines))).

(** [range(start, stop, step)], with CPython's length formula; a zero
    step raises [ValueError]. *)
Definition range_len (start stop step : Z) : Z :=
  if (0 <? step)%Z then Z.max 0 ((stop - start + step - 1) / step)
  else if (step <? 0)%Z then Z.max 0 ((start - stop - step - 1) / (- step))
  else 0%Z.

Definition py_range (start stop step : Z) : result (list Z) :=
  if (step =? 0)%Z then Raise ValueError
  else Ok ((λ k, (start + Z.of_nat k * step)%Z)
             <$> seq 0 (Z.to_nat (range_len start stop step))).

(** [l[:-1]]. *)
Definition drop_last {A} (l : list A) : list A := take (length l - 1) l.

(** ** The tokenizer capability and the tokenized example *)

(** What the tokenizer returns for one text: sub-word token ids, attention
    mask, and for every position the index of the originating word
    ([None] for special and padding tokens). *)
Record BatchEncoding : Type := {
  input_ids : list Z;
  attention_mask : list Z;
  word_ids : list (option nat)
}.

Record TokenizedExample : Type := {
  ex_input_ids : list Z;
  ex_attention_mask : list Z;
  ex_labels : list Z
}.

(** The ignore sentinel of the loss function. *)
Definition IGNORE : Z := (-100)%Z.

(** ** [CustomDataset] *)

Module CustomDataset.

(** [read_data]: the cleaning of the lines, then one record per pair of
    consecutive break indices. *)
Definition clean_line (line : string) : string :=
  replace "I-MISCELLANEOUS" "O"
    (replace "B-MISCELLANEOUS" "O"
       (replace (String tab "") (String space "") (strip newline line))).

Definition read_records (lines : list string) : list (list string) :=
  let break_idxs := np_where_eq lines "" in
  (λ i,
     let start_idx := break_idxs !!! i in
     let end_idx := break_idxs !!! (i + 1) in
     let start_idx :=
       if decide (start_idx ≠ 0) then start_idx + 1 else start_idx in
     slice lines start_idx end_idx) <$> seq 0 (length break_idxs - 1).

Definition read_data (content : string) : list (list string) :=
  read_records (clean_line <$> readlines content).

(** [tag2id]: the loop of [__init__] over [range(len(tags_list))]. *)
Definition build_tag2id (tags_list : list string) : gmap string nat :=
  foldl (λ d i, match tags_list !! i with
                | Some t => <[t := i]> d
                | None => d
                end) ∅ (seq 0 (length tags_list)).

(** The state of the alignment loop. *)
Record align_state : Type := {
  previous_word_idx : option nat;
  label_ids : list Z;
  count : nat
}.

(** [self.tag2id[label_list[word_idx]]]. *)
Definition tag_id (tag2id : gmap string nat) (label_list : list string)
    (word_idx : nat) : result Z :=
  label ← list_getitem label_list (Z.of_nat word_idx);
  id ← dict_getitem tag2id label;
  Ok (Z.of_nat id).

Definition append_label (st : align_state) (word_idx : option nat)
    (body : result Z) : align_state :=
  match body with
  | Ok id =>
      {| previous_word_idx := word_idx;
         label_ids := label_ids st ++ [id];
         count := count st |}
  | Raise _ =>
      {| previous_word_idx := word_idx;
         label_ids := label_ids st ++ [IGNORE];
         count := count st + 1 |}
  end.

(** One iteration of [for word_idx in word_ids]. *)
Definition align_step (tag2id : gmap string nat) (label_list : list string)
    (label_all_tokens : bool) (st : align_state) (word_idx : option nat)
    : align_state :=
  match word_idx with
  | None => append_label st word_idx (Ok IGNORE)
  | Some w =>
      if decide (word_idx ≠ previous_word_idx st) then
        append_label st word_idx (tag_id tag2id label_list w)
      else
        append_label st word_idx
          (if label_all_tokens then tag_id tag2id label_list w else Ok IGNORE)
  end.

Definition align_init : align_state :=
  {| previous_word_idx := None; label_ids := []; count := 0 |}.

Definition align (tag2id : gmap string nat) (label_list : list string)
    (label_all_tokens : bool) (wids : list (option nat)) : align_state :=
  foldl (align_step tag2id label_list label_all_tokens) align_init wids.

(** The two list comprehensions that open [_tokenize_and_align_labels]. *)
Definition word_list (data_point : list string) : result (list string) :=
  comprehension (λ word, list_getitem (split space word) 0) data_point.

Definition label_list (data_point : list string) : result (list string) :=
  comprehension (λ word, list_getitem (split space word) (-1)) data_point.

Section WithTokenizer.

(** [tokenizer text max_length]: the call with [truncation=True],
    [is_split_into_words=False] and [padding='max_length']. *)
Variable tokenizer : string → nat → BatchEncoding.

Definition _tokenize_and_align_labels (tag2id : gmap string nat)
    (max_seq_length : nat) (label_all_tokens : bool)
    (data_point : list string) : result TokenizedExample :=
  word_list ← word_list data_point;
  label_list ← label_list data_point;
  let text := join " " word_list in
  let tokenized_inputs := tokenizer text max_seq_length in
  let st := align tag2id label_list label_all_tokens (word_ids tokenized_inputs) in
  Ok {| ex_input_ids := input_ids tokenized_inputs;
        ex_attention_mask := attention_mask tokenized_inputs;
        ex_labels := label_ids st |}.

Record t : Type := {
  max_seq_length : nat;
  label_all_tokens : bool;
  tag2id : gmap string nat;
  dataset : list TokenizedExample
}.

(** [__init__], given the content of the file at [dataset_path]. *)
Definition __init__ (content : string) (tags_list : list string)
    (max_seq_length : nat) (label_all_tokens : bool) : result t :=
  let tag2id := build_tag2id tags_list in
  let sen_dataset := read_data content in
  dataset ← comprehension
    (_tokenize_and_align_labels tag2id max_seq_length label_all_tokens)
    sen_dataset;
  Ok {| max_seq_length := max_seq_length;
        label_all_tokens := label_all_tokens;
        tag2id := tag2id;
        dataset := dataset |}.

End WithTokenizer.

Definition __len__ (self : t) : nat := length (dataset self).

Definition __getitem__ (self : t) (idx : Z) : result TokenizedExample :=
  list_getitem (dataset self) idx.

End CustomDataset.

(** ** [NERDataModule]: the split/merge pipeline *)

(** A row of the raw annotated table: the [source] category (possibly
    missing) and the [conll_label] list of corpus lines. *)
Record Row : Type := {
  source : option string;
  conll_label : list string
}.

Definition occurrences (v : option string) (col : list (option string)) : nat :=
  length (filter (λ x, x = v) col).

(** [col.value_counts(dropna=False).index[0]]: the most frequent value of
    the column, the first encountered one among equally frequent values;
    [index[0]] of an empty index raises [IndexError]. *)
Definition value_counts_top (col : list (option string)) : result (option string) :=
  match col with
  | [] => Raise IndexError
  | v :: vs =>
      Ok (foldl (λ best x,
                   if decide (occurrences best col < occurrences x col)
                   then x else best) v vs)
  end.

Module NERDataModule.

(** The merge step of [prepare_dataset] for [merge_sentence = M]. *)
Definition merge_rows (merge_sentence : Z) (dataset_df : list Row)
    : result (list Row) :=
  starts ← py_range 0 (Z.of_nat (length dataset_df)) merge_sentence;
  comprehension
    (λ start_idx : Z,
       let chunk := slice dataset_df (Z.to_nat start_idx)
                      (Z.to_nat (start_idx + merge_sentence)) in
       main_source ← value_counts_top (source <$> chunk);
       let new_conll_label := foldl (λ acc r, acc ++ conll_label r) [] chunk in
       Ok {| source := main_source; conll_label := new_conll_label |})
    (drop_last starts).

(** [dataset_df['source'].fillna('other', inplace=True)]. *)
Definition fillna_source (dataset_df : list Row) : list Row :=
  (λ r, {| source := Some (default "other" (source r));
           conll_label := conll_label r |}) <$> dataset_df.

(** [write_to_file]: the content written to the file. *)
Definition write_to_file (df_data : list Row) : string :=
  foldl (λ file item, file +:+ join nl (conll_label item) +:+ nl +:+ nl)
    "" df_data.

Section WithCollaborators.

(** The two table readers: the annotation-tool reader [NERDataSet] and
    [pd.read_csv] followed by [ast.literal_eval] on [conll_label]. *)
Variable NERDataSet : string → result (list Row).
Variable read_csv : string → result (list Row).

(** [train_test_split df train_size random_state], shuffled and
    stratified on [source]; sizes are exact fractions. *)
Variable train_test_split :
  list Row → Q → Z → result (list Row * list Row).

(** The files written, as (name, content) in writing order. *)
Definition prepare_dataset (merge_sentence : option Z) (val_size test_size : Q)
    (dataset_path output_dir data_format : string) (random_state : Z)
    : result (list (string * string)) :=
  dataset_df ←
    (if decide (data_format = "doccano") then
       df ← NERDataSet dataset_path; Ok (Some df)
     else if decide (data_format = "csv") then
       df ← read_csv dataset_path; Ok (Some df)
     else Ok None);
  dataset_df ←
    match merge_sentence with
    | Some M =>
        match dataset_df with
        | Some df => new ← merge_rows M df; Ok (Some new)
        | None => Raise TypeError
        end
    | None => Ok dataset_df
    end;
  dataset_df ←
    match dataset_df with
    | Some df => Ok (fillna_source df)
    | None => Raise TypeError
    end;
  '(df_train, df_rest) ←
    train_test_split dataset_df (1 - val_size - test_size)%Q random_state;
  ratio ←
    (if Qeq_bool (val_size + test_size) 0 then Raise ZeroDivisionError
     else Ok (val_size / (val_size + test_size))%Q);
  '(df_val, df_test) ← train_test_split df_rest ratio 43%Z;
  Ok [(output_dir +:+ "/train_data_old.txt", write_to_file df_train);
      (output_dir +:+ "/val_data_old.txt", write_to_file df_val);
      (output_dir +:+ "/test_data_old.txt", write_to_file df_test)].

End WithCollaborators.

End NERDataModule.

(** A small tokenizer with the shape of the real ones, used to run the
    alignment on concrete sentences: words are the non-empty fields between
    spaces, every character of a word is one sub-word token, and the sequence
    is framed by a start token [0] and an end token [2].  Truncation cuts
    the sub-word tokens down to [max_length - 2], the room the two framing
    tokens leave; a [max_length] below 2 leaves no room and nothing is cut
    then, as with the tokenizers the code loads.  Padding with [1] fills a
    sequence shorter than [max_length] up to it. *)
Definition char_tokens (i : nat) (w : string) : list (Z * option nat) :=
  (λ c, ((Z.of_nat (nat_of_ascii c) + 3)%Z, Some i)) <$> String.list_ascii_of_string w.

Definition char_tokenizer (text : string) (max_length : nat) : BatchEncoding :=
  let words := filter (λ w, w ≠ EmptyString) (split space text) in
  let pieces := concat (imap char_tokens words) in
  let kept :=
    if decide (2 ≤ max_length) then take (max_length - 2) pieces else pieces in
  let toks := (0%Z, None) :: kept ++ [(2%Z, None)] in
  let pad := max_length - length toks in
  {| input_ids := toks.*1 ++ replicate pad 1%Z;
     attention_mask := replicate (length toks) 1%Z ++ replicate pad 0%Z;
     word_ids := toks.*2 ++ replicate pad None |}.

(** A file given by its lines: every line is followed by a newline. *)
Definition file_of_lines (lines : list string) : string :=
  foldr (λ l acc, l +:+ nl +:+ acc) "" lines.

(** ** Derived descriptions used by the statements *)

Definition no_char (c : ascii) (s : string) : Prop :=
  c ∉ String.list_ascii_of_string s.

(** The two field selectors of [_tokenize_and_align_labels], as total
    functions: [split] never returns an empty list. *)
Definition first_field (line : string) : string :=
  default EmptyString (head (split space line)).

Definition last_field (line : string) : string :=
  default EmptyString (last (split space line)).

(** The label appended for a token whose word index is [word_idx] when
    the previous token had word index [prev]. *)
Definition step_label (tag2id : gmap string nat) (labels : list string)
    (label_all_tokens : bool) (prev word_idx : option nat) : Z :=
  match word_idx with
  | None => IGNORE
  | Some w =>
      if decide (word_idx ≠ prev) then
        try_except (CustomDataset.tag_id tag2id labels w) IGNORE
      else if label_all_tokens then
        try_except (CustomDataset.tag_id tag2id labels w) IGNORE
      else IGNORE
  end.

(** The labels of the walk, position by position. *)
Fixpoint walk (tag2id : gmap string nat) (labels : list string)
    (label_all_tokens : bool) (prev : option nat) (wids : list (option nat))
    : list Z :=
  match wids with
  | [] => []
  | word_idx :: rest =>
      step_label tag2id labels label_all_tokens prev word_idx
        :: walk tag2id labels label_all_tokens word_idx rest
  end.

(** The word index of the token before position [p]. *)
Definition prev_at (prev : option nat) (wids : list (option nat)) (p : nat)
    : option nat :=
  match p with
  | 0 => prev
  | S q => default None (wids !! q)
  end.

(** The word of a line as the specification words it: everything before
    the last space. *)
Definition word_before_last_space (line : string) : string :=
  join " " (drop_last (split space line)).


(** A container holding one example, and a corpus with a one-field line,
    to run the operations on. *)
Definition one_example : TokenizedExample :=
  {| ex_input_ids := [0%Z]; ex_attention_mask := [1%Z]; ex_labels := [IGNORE] |}.

Definition one_example_container : CustomDataset.t :=
  {| CustomDataset.max_seq_length := 1;
     CustomDataset.label_all_tokens := false;
     CustomDataset.tag2id := ∅;
     CustomDataset.dataset := [one_example] |}.


#[global] Instance no_char_dec c s : Decision (no_char c s).
Proof. unfold no_char. apply _. Defined.

(** The first position attributed to word [w]. *)
Fixpoint first_position (w : nat) (wids : list (option nat)) : option nat :=
  match wids with
  | [] => None
  | x :: rest =>
      if decide (x = Some w) then Some 0 else S <$> first_position w rest
  end.

(** The positions attributed to word [w] whose label is not the ignore
    sentinel. *)
Definition real_positions (w : nat) (wids : list (option nat))
    (labels : list Z) : list nat :=
  filter (λ p, wids !! p = Some (Some w) ∧ labels !! p ≠ Some IGNORE)
    (seq 0 (length wids)).

(** The sub-word positions of a word are consecutive. *)
Definition contiguous (wids : list (option nat)) : Prop :=
  ∀ p q r w, p ≤ r ≤ q →
    wids !! p = Some (Some w) → wids !! q = Some (Some w) →
    wids !! r = Some (Some w).

(** A line of the file is blank when nothing is left of it once its line
    terminator is stripped. *)
Definition is_blank (raw : string) : Prop := strip newline raw = EmptyString.

#[global] Instance is_blank_dec raw : Decision (is_blank raw).
Proof. unfold is_blank. apply _. Defined.

Definition blank_lines (content : string) : Z :=
  Z.of_nat (length (filter is_blank (readlines content))).

(** A valid corpus file: every line is blank or, once cleaned, a word and
    a tag (at least two fields between spaces), and sentences are separated
    by one blank line only (no two blank lines follow each other). *)
Definition valid_corpus (content : string) : Prop :=
  Forall (λ raw, is_blank raw ∨
                 2 ≤ length (split space (CustomDataset.clean_line raw)))
    (readlines content) ∧
  (∀ i a b, readlines content !! i = Some a →
            readlines content !! S i = Some b →
            ¬ (is_blank a ∧ is_blank b)).

(** A line that the numpy comparison of [read_data] takes for a blank
    line: nothing but NUL characters, if anything, before its terminator. *)
Definition np_blank (raw : string) : Prop :=
  np_unpad (strip newline raw) = EmptyString.

#[global] Instance np_blank_dec raw : Decision (np_blank raw).
Proof. unfold np_blank. apply _. Defined.

Definition np_blank_lines (content : string) : Z :=
  Z.of_nat (length (filter np_blank (readlines content))).

(** A corpus of two lines without any blank line. *)
Definition unterminated_corpus : string := file_of_lines ["a O"; "b O"].

(** The size check of scikit-learn's [train_test_split] that the pipeline
    relies on: a train fraction that is not positive is rejected. *)
Definition rejects_nonpositive_train_size
    (train_test_split : list Row → Q → Z → result (list Row * list Row)) : Prop :=
  ∀ df train_size random_state,
    (train_size <= 0)%Q →
    train_test_split df train_size random_state = Raise ValueError.

(** A splitter without shuffling, with scikit-learn's size checks, to run
    the pipeline on concrete tables: the train part is the first
    floor(train_size * n) rows. *)
Definition prefix_split (df : list Row) (train_size : Q) (random_state : Z)
    : result (list Row * list Row) :=
  if Qle_bool train_size 0 || Qle_bool 1 train_size then Raise ValueError
  else
    let n_train := Z.to_nat (Qfloor (train_size * inject_Z (Z.of_nat (length df)))) in
    if decide (n_train = 0) then Raise ValueError
    else Ok (take n_train df, drop n_train df).

(** The table of the merge example: four rows with sources a, a, b, b. *)
Definition four_rows (c1 c2 c3 c4 : list string) : list Row :=
  [ {| source := Some "a"; conll_label := c1 |};
    {| source := Some "a"; conll_label := c2 |};
    {| source := Some "b"; conll_label := c3 |};
    {| source := Some "b"; conll_label := c4 |} ].

(** The corpus file of the parsing example. *)
Definition example_corpus : string :=
  file_of_lines ["John B-PERSON"; "Smith I-PERSON"; ""; "Jane B-PERSON"; ""].

(** The synthetic row that the merge step emits for one chunk. *)
Definition merged_chunk (chunk : list Row) : Row :=
  {| source := try_except (value_counts_top (source <$> chunk)) None;
     conll_label := concat (conll_label <$> chunk) |}.

(** The lines that [write_to_file] writes for one row: its corpus lines
    and a closing blank line; [join] of no line is the empty string, so a
    row without lines gives two blank lines. *)
Definition lines_of_row (r : Row) : list string :=
  match conll_label r with
  | [] => [EmptyString]
  | ls => ls
  end ++ [EmptyString].

(** The lines of a corpus, cut at its blank lines: the lines before the
    first blank line, the groups of lines between consecutive blank lines,
    and the lines after the last blank line. *)
Definition corpus_lines (first : list string) (sentences : list (list string))
    (rest : list string) : list string :=
  first ++ EmptyString :: concat ((λ s, s ++ [EmptyString]) <$> sentences) ++ rest.

(** The positions holding [v], counted from [a], by recursion on the list. *)
Fixpoint where_from (a : nat) (l : list string) (v : string) : list nat :=
  match l with
  | [] => []
  | x :: l' =>
      if decide (x = v) then a :: where_from (S a) l' v
      else where_from (S a) l' v
  end.

(** The loop of [read_data] over consecutive pairs of break indices. *)
Fixpoint spans (lines : list string) (bs : list nat) : list (list string) :=
  match bs with
  | [] => []
  | b :: bs' =>
      match bs' with
      | [] => []
      | e :: _ =>
          slice lines (if decide (b ≠ 0) then b + 1 else b) e :: spans lines bs'
      end
  end.

(** The break indices of [corpus_lines], after the first one. *)
Fixpoint sentence_ends (o : nat) (sentences : list (list string)) : list nat :=
  match sentences with
  | [] => []
  | s :: ss => (o + length s) :: sentence_ends (o + length s + 1) ss
  end.

(** What a text-mode read returns for the text of a file: a carriage
    return, alone or followed by a newline, comes back as one newline. *)
Fixpoint universal_newlines (s : string) : string :=
  match s with
  | EmptyString => EmptyString
  | String c s' =>
      if decide (c = carriage_return) then
        String newline
          match s' with
          | EmptyString => EmptyString
          | String c' s'' =>
              if decide (c' = newline) then universal_newlines s''
              else universal_newlines s'
          end
      else String c (universal_newlines s')
  end.

(** A corpus line that a write followed by a read leaves as it is: without
    newline or carriage return, not made of NUL characters only (so not
    empty), and unchanged by the clean-up of [read_data]. *)
Definition plain_line (l : string) : Prop :=
  no_char newline l ∧ no_char carriage_return l ∧
  np_unpad l ≠ EmptyString ∧ CustomDataset.clean_line l = l.

#[global] Instance plain_line_dec l : Decision (plain_line l).
Proof. unfold plain_line. apply _. Defined.

(** * Properties *)

(** ** The Python runtime *)

Lemma list_getitem_nonneg {A} (l : list A) (i : nat) (x : A) :
  l !! i = Some x → list_getitem l (Z.of_nat i) = Ok x.
Proof.
  intros Hx. pose proof (lookup_lt_Some _ _ _ Hx) as Hlt.
  unfold list_getitem.
  destruct (Z.ltb_spec (Z.of_nat i) 0) as [?|_]; [lia|].
  destruct (Z.leb_spec 0 (Z.of_nat i)) as [_|?]; [|lia].
  destruct (Z.ltb_spec (Z.of_nat i) (Z.of_nat (length l))) as [_|?]; [|lia].
  simpl. by rewrite Nat2Z.id, Hx.
Qed.

Lemma list_getitem_neg {A} (l : list A) (idx : Z) (x : A) :
  (idx < 0)%Z → (- Z.of_nat (length l) ≤ idx)%Z →
  l !! Z.to_nat (Z.of_nat (length l) + idx) = Some x →
  list_getitem l idx = Ok x.
Proof.
  intros Hneg Hlow Hx. unfold list_getitem.
  destruct (Z.ltb_spec idx 0) as [_|?]; [|lia].
  destruct (Z.leb_spec 0 (idx + Z.of_nat (length l))) as [_|?]; [|lia].
  destruct (Z.ltb_spec (idx + Z.of_nat (length l)) (Z.of_nat (length l)))
    as [_|?]; [|lia].
  simpl. by rewrite Z.add_comm, Hx.
Qed.

Lemma list_getitem_out {A} (l : list A) (idx : Z) :
  ¬ (- Z.of_nat (length l) ≤ idx < Z.of_nat (length l))%Z →
  list_getitem l idx = Raise IndexError.
Proof.
  intros Hout. unfold list_getitem.
  destruct (Z.ltb_spec idx 0) as [Hneg|Hpos].
  - destruct (Z.leb_spec 0 (idx + Z.of_nat (length l))); [|done].
    destruct (Z.ltb_spec (idx + Z.of_nat (length l)) (Z.of_nat (length l)));
      [lia|done].
  - destruct (Z.leb_spec 0 idx); [|done].
    destruct (Z.ltb_spec idx (Z.of_nat (length l))); [lia|done].
Qed.

Lemma list_getitem_in {A} (l : list A) (idx : Z) :
  (- Z.of_nat (length l) ≤ idx < Z.of_nat (length l))%Z →
  ∃ x, list_getitem l idx = Ok x ∧
       l !! Z.to_nat (if (idx <? 0)%Z then (Z.of_nat (length l) + idx)%Z else idx) = Some x.
Proof.
  intros Hin. destruct (Z.ltb_spec idx 0) as [Hneg|Hpos].
  - destruct (lookup_lt_is_Some_2 l (Z.to_nat (Z.of_nat (length l) + idx)))
      as [x Hx]; [lia|].
    exists x. split; [|done]. apply list_getitem_neg; [lia..|done].
  - destruct (lookup_lt_is_Some_2 l (Z.to_nat idx)) as [x Hx]; [lia|].
    exists x. split; [|done].
    rewrite <- (Z2Nat.id idx) by lia. by apply list_getitem_nonneg.
Qed.

Lemma comprehension_total {A B} (f : A → result B) (g : A → B) (l : list A) :
  (∀ x, f x = Ok (g x)) → comprehension f l = Ok (g <$> l).
Proof.
  intros Hf. induction l as [|x xs IH]; [done|].
  simpl. rewrite Hf. simpl. rewrite IH. done.
Qed.

Lemma comprehension_length {A B} (f : A → result B) (l : list A) (r : list B) :
  comprehension f l = Ok r → length r = length l.
Proof.
  revert r. induction l as [|x xs IH]; intros r; simpl.
  - by intros [= <-].
  - destruct (f x) as [y|]; [|done]. simpl.
    destruct (comprehension f xs) as [ys|]; [|done]. simpl.
    intros [= <-]. simpl. f_equal. by apply IH.
Qed.

(** *** [split] *)

Lemma no_char_cons c a s : no_char c (String a s) ↔ a ≠ c ∧ no_char c s.
Proof.
  unfold no_char. simpl. rewrite not_elem_of_cons. intuition congruence.
Qed.

Lemma split_nonempty sep s : split sep s ≠ [].
Proof.
  destruct s as [|c s]; simpl; [done|].
  destruct (decide (c = sep)); [done|]. by destruct (split sep s).
Qed.

Lemma split_no_char sep s : no_char sep s → split sep s = [s].
Proof.
  induction s as [|c s IH]; [done|].
  rewrite no_char_cons. intros [Hc Hs]. simpl.
  rewrite decide_False by done. by rewrite (IH Hs).
Qed.

Lemma split_prefix sep w rest :
  no_char sep w → split sep (w +:+ String sep rest) = w :: split sep rest.
Proof.
  induction w as [|c w IH]; simpl.
  - intros _. by rewrite decide_True.
  - rewrite no_char_cons. intros [Hc Hw].
    rewrite decide_False by done. by rewrite (IH Hw).
Qed.

Lemma split_cons_last sep c s :
  last (split sep (String c s)) =
  if decide (c = sep) then last (split sep s)
  else match split sep s with
       | [f] => Some (String c f)
       | _ => last (split sep s)
       end.
Proof.
  simpl. pose proof (split_nonempty sep s) as Hne.
  destruct (decide (c = sep)).
  - destruct (split sep s) as [|f fs]; done.
  - destruct (split sep s) as [|f [|g fs]]; done.
Qed.

Lemma split_length_sep sep pre t :
  2 ≤ length (split sep (pre +:+ String sep t)).
Proof.
  induction pre as [|c pre IH]; simpl.
  - rewrite decide_True by done. simpl.
    pose proof (split_nonempty sep t). destruct (split sep t); simpl; [done|lia].
  - destruct (decide (c = sep)); simpl.
    + pose proof (split_nonempty sep (pre +:+ String sep t)).
      destruct (split sep (pre +:+ String sep t)); simpl; [done|lia].
    + destruct (split sep (pre +:+ String sep t)); simpl in *; lia.
Qed.

Lemma split_suffix sep pre t :
  no_char sep t → last (split sep (pre +:+ String sep t)) = Some t.
Proof.
  intros Ht. induction pre as [|c pre IH].
  - simpl. rewrite decide_True by done. by rewrite split_no_char.
  - change (String c pre +:+ String sep t) with (String c (pre +:+ String sep t)).
    rewrite split_cons_last. pose proof (split_length_sep sep pre t) as Hlen.
    destruct (decide (c = sep)); [done|].
    destruct (split sep (pre +:+ String sep t)) as [|f [|g fs]];
      simpl in Hlen; [lia|lia|done].
Qed.

Lemma list_getitem_first {A} (x : A) (l : list A) :
  list_getitem (x :: l) 0 = Ok x.
Proof. by apply (list_getitem_nonneg (x :: l) 0). Qed.

Lemma list_getitem_last {A} (l : list A) (x : A) :
  last l = Some x → list_getitem l (-1) = Ok x.
Proof.
  intros Hlast. rewrite last_lookup in Hlast.
  pose proof (lookup_lt_Some _ _ _ Hlast) as Hlt.
  apply list_getitem_neg; [lia|lia|].
  replace (Z.to_nat (Z.of_nat (length l) + -1)) with (pred (length l)) by lia.
  done.
Qed.

Lemma first_field_ok line :
  list_getitem (split space line) 0 = Ok (first_field line).
Proof.
  unfold first_field. pose proof (split_nonempty space line).
  destruct (split space line) as [|f fs]; [done|]. apply list_getitem_first.
Qed.

Lemma last_field_ok line :
  list_getitem (split space line) (-1) = Ok (last_field line).
Proof.
  unfold last_field. pose proof (split_nonempty space line) as Hne.
  destruct (last (split space line)) as [x|] eqn:Hlast.
  - by apply list_getitem_last.
  - by apply last_None in Hlast.
Qed.

Lemma word_list_ok data_point :
  CustomDataset.word_list data_point = Ok (first_field <$> data_point).
Proof. apply comprehension_total, first_field_ok. Qed.

Lemma label_list_ok data_point :
  CustomDataset.label_list data_point = Ok (last_field <$> data_point).
Proof. apply comprehension_total, last_field_ok. Qed.



(** ** The alignment walk *)

Section Walk.

Variable tag2id : gmap string nat.
Variable labels : list string.
Variable label_all_tokens : bool.

Local Abbreviation step_label := (step_label tag2id labels label_all_tokens).
Local Abbreviation walk := (walk tag2id labels label_all_tokens).

Lemma align_step_labels st word_idx :
  CustomDataset.label_ids
    (CustomDataset.align_step tag2id labels label_all_tokens st word_idx)
  = CustomDataset.label_ids st
      ++ [step_label (CustomDataset.previous_word_idx st) word_idx]
  ∧ CustomDataset.previous_word_idx
      (CustomDataset.align_step tag2id labels label_all_tokens st word_idx)
    = word_idx.
Proof.
  unfold CustomDataset.align_step, step_label.
  destruct word_idx as [w|]; [|done].
  destruct (decide (Some w ≠ CustomDataset.previous_word_idx st)).
  - by destruct (CustomDataset.tag_id tag2id labels w).
  - destruct label_all_tokens; [|done].
    by destruct (CustomDataset.tag_id tag2id labels w).
Qed.

Lemma foldl_align_labels wids st :
  CustomDataset.label_ids
    (foldl (CustomDataset.align_step tag2id labels label_all_tokens) st wids)
  = CustomDataset.label_ids st ++ walk (CustomDataset.previous_word_idx st) wids.
Proof.
  revert st. induction wids as [|word_idx rest IH]; intros st; simpl.
  - by rewrite app_nil_r.
  - rewrite IH. destruct (align_step_labels st word_idx) as [-> ->].
    by rewrite <- app_assoc.
Qed.

Lemma align_labels wids :
  CustomDataset.label_ids
    (CustomDataset.align tag2id labels label_all_tokens wids)
  = walk None wids.
Proof. unfold CustomDataset.align. by rewrite foldl_align_labels. Qed.


Lemma walk_lookup prev wids p :
  walk prev wids !! p = step_label (prev_at prev wids p) <$> wids !! p.
Proof.
  revert prev p. induction wids as [|w ws IH]; intros prev p; [done|].
  destruct p as [|p]; [done|]. simpl. rewrite IH.
  destruct p as [|p]; [done|]. simpl.
  by destruct (ws !! S p).
Qed.

Lemma step_label_range prev word_idx :
  step_label prev word_idx = IGNORE ∨
  ∃ w id label, word_idx = Some w ∧ labels !! w = Some label ∧
    tag2id !! label = Some id ∧ step_label prev word_idx = Z.of_nat id.
Proof.
  assert (∀ w, try_except (CustomDataset.tag_id tag2id labels w) IGNORE = IGNORE ∨
    ∃ id label, labels !! w = Some label ∧ tag2id !! label = Some id ∧
      try_except (CustomDataset.tag_id tag2id labels w) IGNORE = Z.of_nat id)
    as Htry.
  { intros w. unfold CustomDataset.tag_id.
    destruct (labels !! w) as [label|] eqn:Hw.
    - rewrite (list_getitem_nonneg _ _ _ Hw). simpl.
      unfold dict_getitem. destruct (tag2id !! label) as [id|] eqn:Hid.
      + right. by exists id, label.
      + by left.
    - left. rewrite list_getitem_out; [done|].
      apply lookup_ge_None in Hw. lia. }
  unfold step_label. destruct word_idx as [w|]; [|by left].
  destruct (decide (Some w ≠ prev)).
  - destruct (Htry w) as [?|(id & label & ? & ? & ?)]; [by left|].
    right. by exists w, id, label.
  - destruct label_all_tokens; [|by left].
    destruct (Htry w) as [?|(id & label & ? & ? & ?)]; [by left|].
    right. by exists w, id, label.
Qed.

End Walk.

(** ** [tag2id] *)

Lemma foldl_tag2id (tags_list : list string) (n a : nat) (d : gmap string nat)
    (t : string) (j : nat) :
  foldl (λ d i, match tags_list !! i with
                | Some t => <[t := i]> d
                | None => d
                end) d (seq a n) !! t = Some j →
  d !! t = Some j ∨ (a ≤ j < a + n ∧ tags_list !! j = Some t).
Proof.
  revert a d. induction n as [|n IH]; intros a d; simpl; [by left|].
  intros Hj. apply IH in Hj as [Hj|[Hr Ht]]; [|right; split; [lia|done]].
  destruct (tags_list !! a) as [u|] eqn:Hu; [|by left].
  destruct (decide (u = t)) as [->|Hne].
  - rewrite lookup_insert_eq in Hj. injection Hj as <-.
    right. split; [lia|done].
  - rewrite lookup_insert_ne in Hj by done. by left.
Qed.

Lemma build_tag2id_index tags_list t j :
  CustomDataset.build_tag2id tags_list !! t = Some j →
  j < length tags_list ∧ tags_list !! j = Some t.
Proof.
  intros Hj. apply foldl_tag2id in Hj as [Hj|[Hr Ht]].
  - by rewrite lookup_empty in Hj.
  - split; [lia|done].
Qed.

(** ** [_tokenize_and_align_labels] *)

Lemma tokenize_and_align_labels_ok tokenizer tag2id max_seq_length
    label_all_tokens data_point :
  CustomDataset._tokenize_and_align_labels tokenizer tag2id max_seq_length
    label_all_tokens data_point
  = let enc := tokenizer (join " " (first_field <$> data_point)) max_seq_length in
    Ok {| ex_input_ids := input_ids enc;
          ex_attention_mask := attention_mask enc;
          ex_labels := walk tag2id (last_field <$> data_point) label_all_tokens
                         None (word_ids enc) |}.
Proof.
  unfold CustomDataset._tokenize_and_align_labels.
  rewrite word_list_ok, label_list_ok. simpl. by rewrite align_labels.
Qed.



(** ** Corpus parser *)

Lemma replace_nil old new s :
  new ≠ EmptyString → replace old new s = EmptyString ↔ s = EmptyString.
Proof.
  intros Hnew. destruct s as [|c s]; [done|]. unfold replace. simpl.
  destruct (starts_with old (String c s)); [|done].
  destruct new as [|n new]; [done|]. done.
Qed.

Lemma clean_line_blank raw :
  CustomDataset.clean_line raw = EmptyString ↔ is_blank raw.
Proof.
  unfold CustomDataset.clean_line, is_blank. by rewrite !replace_nil.
Qed.

Lemma filter_ext_elem {A} (P Q : A → Prop) `{∀ x, Decision (P x)}
    `{∀ x, Decision (Q x)} (l : list A) :
  (∀ x, x ∈ l → (P x ↔ Q x)) → filter P l = filter Q l.
Proof.
  induction l as [|x l IH]; intros Hext; [done|].
  rewrite !filter_cons.
  rewrite IH by (intros y Hy; apply Hext; by right).
  destruct (decide (P x)) as [HP|HP], (decide (Q x)) as [HQ|HQ]; try done.
  - destruct HQ. apply Hext; [by left|done].
  - destruct HP. apply Hext; [by left|done].
Qed.

Lemma where_length_from (l : list string) (v : string) (a : nat) :
  length (filter (λ i, l !! (i - a) = Some v) (seq a (length l)))
  = length (filter (λ x, x = v) l).
Proof.
  revert a. induction l as [|x l IH]; intros a; [done|].
  simpl. rewrite !filter_cons. rewrite Nat.sub_diag. simpl.
  rewrite (filter_ext_elem (λ i, (x :: l) !! (i - a) = Some v)
             (λ i, l !! (i - S a) = Some v)).
  - destruct (decide (Some x = Some v)) as [Hx|Hx], (decide (x = v)) as [Hv|Hv];
      simpl; rewrite ?IH; try done; congruence.
  - intros i Hi. apply elem_of_seq in Hi.
    replace (i - a) with (S (i - S a)) by lia. done.
Qed.

Lemma np_where_eq_length lines v :
  length (np_where_eq lines v)
  = length (filter (λ x, x = np_unpad v) (np_array lines)).
Proof.
  unfold np_where_eq.
  rewrite <- (where_length_from (np_array lines) (np_unpad v) 0).
  f_equal. apply filter_ext_elem. intros i _. by rewrite Nat.sub_0_r.
Qed.

(** Two consecutive entries of the positions kept by a filter over
    [seq a n]. *)
Lemma filter_seq_adjacent (P : nat → Prop) `{∀ x, Decision (P x)} n a i x y :
  filter P (seq a n) !! i = Some x →
  filter P (seq a n) !! S i = Some y →
  x < y ∧ P x ∧ P y ∧ y < a + n.
Proof.
  revert a i. induction n as [|n IH]; intros a i; [done|].
  simpl. rewrite filter_cons. destruct (decide (P a)) as [HP|HP].
  - destruct i as [|i]; simpl.
    + intros [= <-] Hy. apply list_elem_of_lookup_2 in Hy.
      apply list_elem_of_filter in Hy as [HPy Hy]. apply elem_of_seq in Hy.
      repeat split; [lia|done|done|lia].
    + intros Hx Hy. destruct (IH (S a) i Hx Hy) as (? & ? & ? & ?).
      repeat split; [done|done|done|lia].
  - intros Hx Hy. destruct (IH (S a) i Hx Hy) as (? & ? & ? & ?).
    repeat split; [done|done|done|lia].
Qed.

Lemma read_records_length lines :
  length (CustomDataset.read_records lines)
  = length (filter (λ x, x = EmptyString) (np_array lines)) - 1.
Proof.
  unfold CustomDataset.read_records.
  by rewrite length_fmap, length_seq, np_where_eq_length.
Qed.

Lemma read_records_nonempty lines :
  (∀ i, np_array lines !! i = Some EmptyString →
        np_array lines !! S i = Some EmptyString → False) →
  Forall (λ record, record ≠ []) (CustomDataset.read_records lines).
Proof.
  intros Hsep. unfold CustomDataset.read_records.
  apply Forall_fmap, Forall_forall. intros i Hi. apply elem_of_seq in Hi. simpl.
  set (bs := np_where_eq lines EmptyString) in *.
  destruct (lookup_lt_is_Some_2 bs i) as [x Hx]; [lia|].
  destruct (lookup_lt_is_Some_2 bs (S i)) as [y Hy]; [lia|].
  rewrite (list_lookup_total_correct _ _ _ Hx).
  replace (i + 1) with (S i) by lia.
  rewrite (list_lookup_total_correct _ _ _ Hy).
  destruct (filter_seq_adjacent _ _ _ _ _ _ Hx Hy) as (Hlt & HPx & HPy & Hy').
  unfold np_array in Hy'. rewrite length_fmap in Hy'.
  intros Hnil. apply (f_equal length) in Hnil.
  unfold slice in Hnil. rewrite length_drop, length_take in Hnil. simpl in Hnil.
  destruct (decide (x ≠ 0)) as [Hx0|Hx0]; [|lia].
  assert (y = S x) as -> by lia. by apply (Hsep x).
Qed.

(** *** Lines that numpy takes for blank lines *)

Lemma rstrip_nil_cons c a s :
  rstrip c (String a s) = EmptyString ↔ a = c ∧ rstrip c s = EmptyString.
Proof.
  cbn [rstrip]. destruct (rstrip c s) as [|r rs].
  - destruct (decide (a = c)); split; try done; by intros [? ?].
  - split; [done|by intros [? ?]].
Qed.

Lemma rstrip_nil_no_char c d s :
  d ≠ c → rstrip c s = EmptyString → no_char d s.
Proof.
  intros Hd. induction s as [|a s IH]; intros Hs.
  - unfold no_char. simpl. apply not_elem_of_nil.
  - apply rstrip_nil_cons in Hs as [-> Hs]. apply no_char_cons.
    split; [done|by apply IH].
Qed.

Lemma replace_unpad c o0 o' n0 n' s :
  o0 ≠ c → n0 ≠ c →
  rstrip c (replace (String o0 o') (String n0 n') s) = EmptyString ↔
  rstrip c s = EmptyString.
Proof.
  intros Ho Hn. unfold replace. induction s as [|a s IH]; [done|].
  cbn [replace_from].
  destruct (starts_with (String o0 o') (String a s)) eqn:Hstart.
  - change (String n0 n' +:+ ?x) with (String n0 (n' +:+ x)).
    rewrite !rstrip_nil_cons. cbn [starts_with] in Hstart.
    apply andb_true_iff in Hstart as [Ha%bool_decide_eq_true _].
    split; intros [? _]; congruence.
  - by rewrite !rstrip_nil_cons, IH.
Qed.

Lemma clean_line_np_blank raw :
  np_unpad (CustomDataset.clean_line raw) = EmptyString ↔ np_blank raw.
Proof.
  unfold CustomDataset.clean_line, np_blank, np_unpad.
  rewrite (replace_unpad nul "I" "-MISCELLANEOUS" "O" EmptyString) by done.
  rewrite (replace_unpad nul "B" "-MISCELLANEOUS" "O" EmptyString) by done.
  by rewrite (replace_unpad nul tab EmptyString space EmptyString).
Qed.

Lemma filter_np_blank_clean raw :
  length (filter (λ x, x = EmptyString)
            (np_array (CustomDataset.clean_line <$> raw)))
  = length (filter np_blank raw).
Proof.
  induction raw as [|r raw IH]; [done|].
  unfold np_array in *. rewrite !fmap_cons, !filter_cons.
  destruct (decide (np_unpad (CustomDataset.clean_line r) = EmptyString))
    as [Hc|Hc], (decide (np_blank r)) as [Hb|Hb]; simpl; rewrite ?IH; try done.
  - by apply clean_line_np_blank in Hc.
  - by apply clean_line_np_blank in Hb.
Qed.

(** In a valid corpus file the lines that numpy takes for blank lines are
    the blank lines. *)
Lemma valid_line_np_blank raw :
  is_blank raw ∨ 2 ≤ length (split space (CustomDataset.clean_line raw)) →
  np_blank raw ↔ is_blank raw.
Proof.
  intros Hvalid. split.
  - intros Hnp. destruct Hvalid as [?|Hfields]; [done|].
    apply clean_line_np_blank in Hnp.
    apply (rstrip_nil_no_char nul space) in Hnp; [|done].
    rewrite (split_no_char _ _ Hnp) in Hfields. simpl in Hfields. lia.
  - unfold is_blank, np_blank. by intros ->.
Qed.

(** C4, counterexample. The corpus of the two lines "a O" and "b O" is
    valid and has no blank line; [read_data] returns no record for it,
    which is 0 records and not -1. *)
Lemma read_data_without_blank_line :
  valid_corpus unterminated_corpus ∧
  blank_lines unterminated_corpus = 0%Z ∧
  CustomDataset.read_data unterminated_corpus = [] ∧
  Z.of_nat (length (CustomDataset.read_data unterminated_corpus))
    ≠ (blank_lines unterminated_corpus - 1)%Z.
Proof.
  split; [|split; [reflexivity|split; [reflexivity|by vm_compute]]].
  split.
  - apply (bool_decide_unpack _). by vm_compute.
  - set (lines := readlines _). vm_compute in lines. subst lines.
    intros i a b Ha Hb [Hba Hbb].
    destruct i as [|[|i]]; simpl in Ha, Hb; simplify_eq;
      vm_compute in Hba, Hbb; discriminate.
Qed.

(** C4, amended. For every valid corpus file the number of records returned
    by [read_data] is the number of blank lines of the file minus 1 when
    the file has a blank line, and 0 when it has none; every record
    returned is a non-empty list of lines. *)
Theorem read_data_record_count (content : string) :
  valid_corpus content →
  Z.of_nat (length (CustomDataset.read_data content))
    = Z.max 0 (blank_lines content - 1) ∧
  Forall (λ record, record ≠ []) (CustomDataset.read_data content).
Proof.
  intros [Hlines Hsep]. unfold CustomDataset.read_data. split.
  - rewrite read_records_length, filter_np_blank_clean. unfold blank_lines.
    rewrite (filter_ext_elem np_blank is_blank); [lia|].
    intros raw Hraw. apply valid_line_np_blank.
    rewrite Forall_forall in Hlines. by apply Hlines.
  - apply read_records_nonempty. intros i Ha Hb.
    unfold np_array in Ha, Hb. rewrite !list_lookup_fmap in Ha, Hb.
    destruct (readlines content !! i) as [a|] eqn:Hai; [|done].
    destruct (readlines content !! S i) as [b|] eqn:Hbi; [|done].
    simpl in Ha, Hb. injection Ha as Ha. injection Hb as Hb.
    rewrite Forall_lookup in Hlines.
    apply (Hsep i a b Hai Hbi). split.
    + apply (valid_line_np_blank a (Hlines i a Hai)).
      by apply clean_line_np_blank.
    + apply (valid_line_np_blank b (Hlines (S i) b Hbi)).
      by apply clean_line_np_blank.
Qed.

Lemma read_data_record_count_witness :
  Z.of_nat (length (CustomDataset.read_data
                      (file_of_lines ["a O"; ""; "b O"; "c O"; ""])))
    = Z.max 0 (blank_lines (file_of_lines ["a O"; ""; "b O"; "c O"; ""]) - 1) ∧
  Forall (λ record, record ≠ [])
    (CustomDataset.read_data (file_of_lines ["a O"; ""; "b O"; "c O"; ""])).
Proof.
  apply (read_data_record_count (file_of_lines ["a O"; ""; "b O"; "c O"; ""])).
  split.
  - apply (bool_decide_unpack _). vm_compute. exact I.
  - set (lines := readlines _). vm_compute in lines. subst lines.
    intros i a b Ha Hb [Hba Hbb].
    destruct i as [|[|[|[|[|i]]]]]; simpl in Ha, Hb; simplify_eq;
      vm_compute in Hba, Hbb; discriminate.
Defined.

(** ** Label alignment: range and length of the label ids *)

(** C10. Every label id of the example produced for a sentence record is the
    ignore sentinel -100 or lies in [0, k), k the size of [tags_list], and
    is then the id that [tag2id] gives to a tag of [tags_list] found at
    that position of the list. *)
Theorem label_ids_sentinel_or_vocabulary_index
    (tokenizer : string → nat → BatchEncoding) (tags_list : list string)
    (max_seq_length : nat) (label_all_tokens : bool) (data_point : list string) :
  ∃ ex,
    CustomDataset._tokenize_and_align_labels tokenizer
      (CustomDataset.build_tag2id tags_list) max_seq_length label_all_tokens
      data_point = Ok ex ∧
    Forall (λ id : Z,
              id = IGNORE ∨
              ((0 ≤ id < Z.of_nat (length tags_list))%Z ∧
               ∃ t, tags_list !! Z.to_nat id = Some t ∧
                    CustomDataset.build_tag2id tags_list !! t = Some (Z.to_nat id)))
      (ex_labels ex).
Proof.
  rewrite tokenize_and_align_labels_ok. eexists. split; [done|]. simpl.
  apply Forall_lookup. intros p id Hp. rewrite walk_lookup in Hp.
  destruct (word_ids _ !! p) as [word_idx|]; [|done]. injection Hp as <-.
  destruct (step_label_range (CustomDataset.build_tag2id tags_list)
              (last_field <$> data_point) label_all_tokens
              (prev_at None (word_ids (tokenizer (join " " (first_field <$> data_point))
                                         max_seq_length)) p) word_idx)
    as [->|(w & j & label & _ & _ & Hj & ->)]; [by left|].
  right. destruct (build_tag2id_index _ _ _ Hj) as [Hlt Ht].
  split; [lia|]. exists label. by rewrite Nat2Z.id.
Qed.




(** ** Label alignment: one real label per word *)

Lemma first_position_spec w wids p :
  first_position w wids = Some p →
  wids !! p = Some (Some w) ∧ ∀ q, q < p → wids !! q ≠ Some (Some w).
Proof.
  revert p. induction wids as [|x rest IH]; intros p; simpl; [done|].
  destruct (decide (x = Some w)) as [->|Hx].
  - intros [= <-]. split; [done|]. intros q Hq. lia.
  - destruct (first_position w rest) as [p'|]; [|done]. simpl.
    intros [= <-]. destruct (IH p' eq_refl) as [Hp Hbefore].
    split; [done|]. intros [|q] Hq; simpl.
    + congruence.
    + apply Hbefore. lia.
Qed.

Lemma first_position_exists w wids :
  Some w ∈ wids → ∃ p, first_position w wids = Some p.
Proof.
  induction wids as [|x rest IH]; [by intros ?%elem_of_nil|].
  intros Hin. simpl. destruct (decide (x = Some w)); [by exists 0|].
  apply elem_of_cons in Hin as [?|Hin]; [congruence|].
  destruct (IH Hin) as [p ->]. by exists (S p).
Qed.

Lemma filter_seq_singleton (P : nat → Prop) `{∀ x, Decision (P x)} (n p : nat) :
  p < n → P p → (∀ q, q < n → P q → q = p) → filter P (seq 0 n) = [p].
Proof.
  intros Hp HPp Huniq.
  apply Permutation_singleton_r, NoDup_Permutation.
  - apply NoDup_filter, NoDup_seq.
  - apply NoDup_singleton.
  - intros q. rewrite list_elem_of_filter, elem_of_seq, list_elem_of_singleton.
    split.
    + intros [HPq Hq]. apply Huniq; [lia|done].
    + intros ->. split; [done|lia].
Qed.

Lemma filter_seq_nil (P : nat → Prop) `{∀ x, Decision (P x)} (n : nat) :
  (∀ q, q < n → ¬ P q) → filter P (seq 0 n) = [].
Proof.
  intros Hnone. apply elem_of_nil_inv. intros q.
  rewrite list_elem_of_filter, elem_of_seq. intros [HPq Hq]. apply (Hnone q); [lia|done].
Qed.

Lemma tag_id_not_ignore tag2id labels w id :
  CustomDataset.tag_id tag2id labels w = Ok id → id ≠ IGNORE.
Proof.
  unfold CustomDataset.tag_id.
  destruct (list_getitem labels (Z.of_nat w)) as [label|]; [|done]. simpl.
  destruct (dict_getitem tag2id label) as [j|]; [|done]. simpl.
  intros [= <-]. unfold IGNORE. lia.
Qed.

(** The walk without sub-word labelling, at the positions of one word whose
    positions are consecutive. *)
Lemma walk_word_positions tag2id labels wids w p :
  contiguous wids → first_position w wids = Some p →
  walk tag2id labels false None wids !! p
    = Some (try_except (CustomDataset.tag_id tag2id labels w) IGNORE) ∧
  ∀ q, q ≠ p → wids !! q = Some (Some w) →
       walk tag2id labels false None wids !! q = Some IGNORE.
Proof.
  intros Hcont Hfirst. destruct (first_position_spec _ _ _ Hfirst) as [Hp Hbefore].
  split.
  - rewrite walk_lookup, Hp. simpl. unfold step_label.
    rewrite decide_True; [done|].
    destruct p as [|p']; simpl; [done|].
    specialize (Hbefore p' (Nat.lt_succ_diag_r p')).
    destruct (wids !! p') as [x|]; simpl; congruence.
  - intros q Hne Hq. rewrite walk_lookup, Hq. simpl. unfold step_label.
    assert (p < q) as Hlt.
    { destruct (decide (q < p)) as [Hqp|]; [|lia]. by destruct (Hbefore q Hqp). }
    destruct q as [|q']; [lia|]. simpl.
    rewrite (Hcont p (S q') q' w) by (done || lia). simpl.
    by rewrite decide_False by (intros Hx; by apply Hx).
Qed.

(** C5, counterexample. The record has one word, "foo", whose tag "XYZ" is
    not in the vocabulary; the word owns three sub-word positions and none
    of them carries a real label. *)
Lemma unknown_tag_word_has_no_real_label :
  word_ids (char_tokenizer "foo" 6) = [None; Some 0; Some 0; Some 0; None; None] ∧
  ∃ ex,
    CustomDataset._tokenize_and_align_labels char_tokenizer
      (CustomDataset.build_tag2id ["O"]) 6 false ["foo XYZ"] = Ok ex ∧
    real_positions 0 (word_ids (char_tokenizer "foo" 6)) (ex_labels ex) = [] ∧
    length (real_positions 0 (word_ids (char_tokenizer "foo" 6)) (ex_labels ex))
      ≠ 1.
Proof.
  split; [reflexivity|]. eexists. split; [vm_compute; reflexivity|].
  split; [vm_compute; reflexivity|]. vm_compute. discriminate.
Qed.

(** C5, amended. With [label_all_tokens = false] and a tokenizer output in
    which the positions of a word are consecutive, a word that owns
    sub-word positions and whose tag is in the vocabulary has exactly one
    real label among them, at its first position, and that label is the
    tag's id; when the tag lookup fails (tag absent from the vocabulary)
    none of its positions has a real label.  Special and padding positions
    always carry the ignore sentinel. *)
Theorem one_real_label_per_known_word
    (tokenizer : string → nat → BatchEncoding) (tags_list : list string)
    (max_seq_length : nat) (data_point : list string) (w : nat) :
  let wids := word_ids (tokenizer (join " " (first_field <$> data_point))
                          max_seq_length) in
  let lookup := CustomDataset.tag_id (CustomDataset.build_tag2id tags_list)
                  (last_field <$> data_point) w in
  contiguous wids → Some w ∈ wids →
  ∃ ex p,
    CustomDataset._tokenize_and_align_labels tokenizer
      (CustomDataset.build_tag2id tags_list) max_seq_length false data_point
      = Ok ex ∧
    first_position w wids = Some p ∧
    real_positions w wids (ex_labels ex)
      = match lookup with Ok _ => [p] | Raise _ => [] end ∧
    ex_labels ex !! p = Some (try_except lookup IGNORE) ∧
    (∀ q, wids !! q = Some None → ex_labels ex !! q = Some IGNORE).
Proof.
  intros wids lookup Hcont Hin.
  destruct (first_position_exists _ _ Hin) as [p Hfirst].
  destruct (first_position_spec _ _ _ Hfirst) as [Hp _].
  destruct (walk_word_positions (CustomDataset.build_tag2id tags_list)
              (last_field <$> data_point) wids w p Hcont Hfirst)
    as [Hlabel Hothers].
  rewrite tokenize_and_align_labels_ok. eexists. exists p.
  split; [reflexivity|]. simpl. fold wids.
  split; [done|]. split; [|split; [done|]].
  - unfold real_positions. fold lookup in Hlabel.
    destruct lookup as [id|e] eqn:Hlookup; simpl in Hlabel.
    + apply filter_seq_singleton.
      * by apply lookup_lt_Some in Hp.
      * split; [done|]. rewrite Hlabel. intros [= Hid].
        by apply (tag_id_not_ignore _ _ _ _ Hlookup).
      * intros q _ [Hq Hreal]. destruct (decide (q = p)) as [|Hne]; [done|].
        by rewrite (Hothers q Hne Hq) in Hreal.
    + apply filter_seq_nil. intros q _ [Hq Hreal].
      destruct (decide (q = p)) as [->|Hne]; [by rewrite Hlabel in Hreal|].
      by rewrite (Hothers q Hne Hq) in Hreal.
  - intros q Hq. by rewrite walk_lookup, Hq.
Qed.

Lemma one_real_label_per_known_word_witness :
  ∃ ex p,
    CustomDataset._tokenize_and_align_labels char_tokenizer
      (CustomDataset.build_tag2id ["B-PERSON"; "I-PERSON"; "O"]) 8 false
      ["Jo B-PERSON"; "Sm I-PERSON"] = Ok ex ∧
    first_position 1 (word_ids (char_tokenizer "Jo Sm" 8)) = Some p ∧
    real_positions 1 (word_ids (char_tokenizer "Jo Sm" 8)) (ex_labels ex) = [p] ∧
    ex_labels ex !! p = Some 1%Z ∧
    (∀ q, word_ids (char_tokenizer "Jo Sm" 8) !! q = Some None →
          ex_labels ex !! q = Some IGNORE).
Proof.
  apply (one_real_label_per_known_word char_tokenizer
           ["B-PERSON"; "I-PERSON"; "O"] 8 ["Jo B-PERSON"; "Sm I-PERSON"] 1).
  - set (wids := word_ids _). vm_compute in wids. subst wids.
    intros p q r w Hr Hp Hq.
    pose proof (lookup_lt_Some _ _ _ Hp) as Hpb.
    pose proof (lookup_lt_Some _ _ _ Hq) as Hqb. simpl in Hpb, Hqb.
    destruct p as [|[|[|[|[|[|[|[|p]]]]]]]]; try lia; try discriminate Hp;
    destruct q as [|[|[|[|[|[|[|[|q]]]]]]]]; try lia; try discriminate Hq;
    destruct r as [|[|[|[|[|[|[|[|r]]]]]]]]; try lia;
    simpl in *; congruence.
  - vm_compute. do 3 right. left.
Defined.

(** ** Dataset container *)

(** C9, counterexample. On a container of length 1 the index -1 lies
    outside [0, 1) and the lookup succeeds: it returns the last example. *)
Lemma getitem_negative_index_succeeds :
  ¬ (0 ≤ -1 < Z.of_nat (CustomDataset.__len__ one_example_container))%Z ∧
  CustomDataset.__getitem__ one_example_container (-1) = Ok one_example.
Proof. split; [simpl; lia|reflexivity]. Qed.

(** C9, amended. Indexed lookup on a container of length n succeeds
    exactly when -n <= idx < n: a non-negative index returns the example at
    that position, a negative one the example at position n + idx; every
    other index fails with [IndexError]. *)
Theorem getitem_succeeds_iff_in_python_range (self : CustomDataset.t) (idx : Z) :
  let n := Z.of_nat (CustomDataset.__len__ self) in
  (succeeds (CustomDataset.__getitem__ self idx) ↔ (- n ≤ idx < n)%Z) ∧
  (¬ (- n ≤ idx < n)%Z → CustomDataset.__getitem__ self idx = Raise IndexError) ∧
  (∀ ex, CustomDataset.__getitem__ self idx = Ok ex →
         CustomDataset.dataset self
           !! Z.to_nat (if (idx <? 0)%Z then (n + idx)%Z else idx) = Some ex).
Proof.
  unfold CustomDataset.__getitem__, CustomDataset.__len__. simpl.
  set (l := CustomDataset.dataset self).
  destruct (decide (- Z.of_nat (length l) ≤ idx < Z.of_nat (length l))%Z)
    as [Hin|Hout].
  - destruct (list_getitem_in l idx Hin) as (x & Hx & Hlook).
    split; [|split].
    + split; [done|]. intros _. by exists x.
    + done.
    + intros ex. rewrite Hx. by intros [= <-].
  - pose proof (list_getitem_out l idx Hout) as Hraise.
    split; [|split].
    + split; [|done]. intros [x Hx]. by rewrite Hraise in Hx.
    + done.
    + intros ex. by rewrite Hraise.
Qed.

Lemma getitem_succeeds_iff_in_python_range_witness :
  CustomDataset.__getitem__ one_example_container 1 = Raise IndexError ∧
  CustomDataset.__getitem__ one_example_container (-2) = Raise IndexError.
Proof.
  split.
  - apply (getitem_succeeds_iff_in_python_range one_example_container 1).
    unfold CustomDataset.__len__. simpl. lia.
  - apply (getitem_succeeds_iff_in_python_range one_example_container (-2)).
    unfold CustomDataset.__len__. simpl. lia.
Defined.

(** ** Words and tags of a corpus line *)

(** C2, counterexample. For the line "New York B-LOC" the word handed to
    the tokenizer is "New", not "New York", the part before the last
    space. *)
Lemma word_of_spaced_line_is_not_prefix :
  word_before_last_space "New York B-LOC" = "New York" ∧
  CustomDataset.word_list ["New York B-LOC"] = Ok ["New"] ∧
  CustomDataset.word_list ["New York B-LOC"]
    ≠ Ok [word_before_last_space "New York B-LOC"].
Proof. split; [reflexivity|]. split; [reflexivity|]. by vm_compute. Qed.

(** C2, amended. The word of a corpus line is its first space-delimited
    field, the part before the first space, and the tag is its last
    space-delimited field, the part after the last space; fields in
    between belong to neither. *)
Theorem word_is_first_field_and_tag_is_last_field (w rest pre t : string) :
  no_char space w → no_char space t →
  w +:+ " " +:+ rest = pre +:+ " " +:+ t →
  CustomDataset.word_list [w +:+ " " +:+ rest] = Ok [w] ∧
  CustomDataset.label_list [w +:+ " " +:+ rest] = Ok [t].
Proof.
  intros Hw Ht Heq. rewrite word_list_ok, label_list_ok. simpl.
  unfold first_field, last_field. split.
  - change (w +:+ " " +:+ rest) with (w +:+ String space rest).
    by rewrite split_prefix.
  - rewrite Heq. change (pre +:+ " " +:+ t) with (pre +:+ String space t).
    by rewrite split_suffix.
Qed.

Lemma word_is_first_field_and_tag_is_last_field_witness :
  CustomDataset.word_list ["New York B-LOC"] = Ok ["New"] ∧
  CustomDataset.label_list ["New York B-LOC"] = Ok ["B-LOC"].
Proof.
  apply (word_is_first_field_and_tag_is_last_field
           "New" "York B-LOC" "New York" "B-LOC").
  - apply (bool_decide_unpack _). vm_compute. exact I.
  - apply (bool_decide_unpack _). vm_compute. exact I.
  - reflexivity.
Defined.

(** ** Lines with fewer than two fields *)







(** ** Split/merge pipeline *)

(** C3. On the corpus file with lines "John B-PERSON", "Smith I-PERSON",
    "", "Jane B-PERSON", "" the parser returns one record only, the one
    between the two blank lines: the sentence before the first blank line is
    not returned. *)
Theorem read_data_example_returns_second_sentence_only :
  CustomDataset.read_data example_corpus = [["Jane B-PERSON"]] ∧
  CustomDataset.word_list ["Jane B-PERSON"] = Ok ["Jane"] ∧
  CustomDataset.label_list ["Jane B-PERSON"] = Ok ["B-PERSON"].
Proof. split; [by vm_compute|]. split; reflexivity. Qed.

(** What [write_to_file] writes for two rows is a file of this shape, with
    no blank line before the first sentence; read back, its first sentence
    is lost. *)
Example write_then_read_loses_first_row :
  NERDataModule.write_to_file
    [ {| source := Some "a"; conll_label := ["John B-PERSON"; "Smith I-PERSON"] |};
      {| source := Some "a"; conll_label := ["Jane B-PERSON"] |} ]
  = example_corpus.
Proof. reflexivity. Qed.

(** With a blank line in front, both sentences are returned, the first one
    with the blank line in it. *)
Example read_data_leading_blank :
  CustomDataset.read_data
    (file_of_lines [""; "John B-PERSON"; "Smith I-PERSON"; ""; "Jane B-PERSON"; ""])
  = [[""; "John B-PERSON"; "Smith I-PERSON"]; ["Jane B-PERSON"]].
Proof. by vm_compute. Qed.

(** C1. With [merge_sentence = 2] on four rows with sources a, a, b, b the
    merge step returns one merged row only, with source a and the first
    pair's tag-sequences in order: the second, full, pair is dropped. *)
Theorem merge_rows_example_returns_first_pair_only (c1 c2 c3 c4 : list string) :
  NERDataModule.merge_rows 2 (four_rows c1 c2 c3 c4)
  = Ok [ {| source := Some "a"; conll_label := c1 ++ c2 |} ].
Proof. reflexivity. Qed.

(** *** The merge step in general *)

Lemma comprehension_total_elem {A B} (f : A → result B) (g : A → B) (l : list A) :
  (∀ x, x ∈ l → f x = Ok (g x)) → comprehension f l = Ok (g <$> l).
Proof.
  induction l as [|x xs IH]; intros Hf; [done|].
  simpl. rewrite (Hf x) by by left. simpl.
  rewrite IH by (intros y Hy; apply Hf; by right). done.
Qed.

Lemma foldl_extend (chunk : list Row) (acc : list string) :
  foldl (λ acc r, acc ++ conll_label r) acc chunk
  = acc ++ concat (conll_label <$> chunk).
Proof.
  revert acc. induction chunk as [|r chunk IH]; intros acc; simpl.
  - by rewrite app_nil_r.
  - by rewrite IH, app_assoc.
Qed.

Lemma value_counts_top_ok col :
  col ≠ [] → ∃ v, value_counts_top col = Ok v.
Proof. destruct col as [|v vs]; [done|]. intros _. by eexists. Qed.

Lemma drop_last_fmap_seq {B} (f : nat → B) (n : nat) :
  drop_last (f <$> seq 0 n) = f <$> seq 0 (n - 1).
Proof.
  unfold drop_last. rewrite length_fmap, length_seq, <- fmap_take, take_seq.
  by rewrite Nat.min_l by lia.
Qed.

(** For a positive merge factor the merge step succeeds, and its rows are
    the merged chunks at the start indices 0, M, 2M, ... below the table
    length, the last start index left out. *)
Lemma merge_rows_chunks (M : Z) (df : list Row) :
  (0 < M)%Z →
  NERDataModule.merge_rows M df
  = Ok ((λ k, merged_chunk
                (slice df (k * Z.to_nat M) (k * Z.to_nat M + Z.to_nat M)))
          <$> seq 0 (Z.to_nat ((Z.of_nat (length df) + M - 1) / M) - 1)).
Proof.
  intros HM. unfold NERDataModule.merge_rows, py_range, range_len.
  destruct (Z.eqb_spec M 0) as [?|_]; [lia|].
  destruct (Z.ltb_spec 0 M) as [_|?]; [|lia]. simpl.
  rewrite drop_last_fmap_seq.
  set (n := Z.of_nat (length df)).
  replace (n - 0 + M - 1)%Z with (n + M - 1)%Z by lia.
  assert (0 ≤ (n + M - 1) / M)%Z as HL by (apply Z.div_pos; lia).
  rewrite Z.max_r by done.
  set (L := Z.to_nat ((n + M - 1) / M)).
  rewrite (comprehension_total_elem _
             (λ start_idx : Z,
                merged_chunk (slice df (Z.to_nat start_idx)
                                (Z.to_nat (start_idx + M))))).
  - rewrite <- list_fmap_compose. f_equal. apply list_fmap_ext.
    intros _ k _. simpl.
    assert (Z.to_nat (Z.of_nat k * M) = k * Z.to_nat M) as Hk
      by (rewrite Z2Nat.inj_mul, Nat2Z.id; lia).
    rewrite Z.add_0_l, Z2Nat.inj_add, Hk by lia. done.
  - intros x Hx. apply list_elem_of_fmap in Hx as (k & -> & Hk).
    apply elem_of_seq in Hk. simpl.
    set (chunk := slice df _ _).
    assert (chunk ≠ []) as Hne.
    { intros Hnil. apply (f_equal length) in Hnil. unfold chunk, slice in Hnil.
      rewrite length_drop, length_take in Hnil. simpl in Hnil.
      pose proof (Z.mul_div_le (n + M - 1) M HM).
      assert (Z.of_nat k + 2 ≤ (n + M - 1) / M)%Z by lia.
      assert (Z.of_nat k * M < n)%Z by nia. lia. }
    destruct (value_counts_top_ok (source <$> chunk)) as [v Hv].
    { by destruct chunk. }
    unfold merged_chunk. rewrite Hv. simpl.
    by rewrite foldl_extend.
Qed.

(** The number of merged rows: one less than the number of full chunks
    when the table length is a multiple of M, and the number of full chunks
    otherwise. *)
Lemma merge_rows_length (M : Z) (df : list Row) :
  (0 < M)%Z →
  ∃ rows, NERDataModule.merge_rows M df = Ok rows ∧
    Z.of_nat (length rows)
    = if (Z.of_nat (length df) mod M =? 0)%Z
      then Z.max 0 (Z.of_nat (length df) / M - 1)
      else (Z.of_nat (length df) / M)%Z.
Proof.
  intros HM. rewrite merge_rows_chunks by done. eexists. split; [done|].
  rewrite length_fmap, length_seq.
  set (n := Z.of_nat (length df)).
  assert (0 ≤ n)%Z as Hn by lia.
  pose proof (Z.div_mod n M ltac:(lia)) as Hdm.
  pose proof (Z.mod_pos_bound n M HM) as Hmod.
  assert (0 ≤ n / M)%Z as Hq by (apply Z.div_pos; lia).
  destruct (Z.eqb_spec (n mod M) 0) as [H0|H0].
  - assert ((n + M - 1) / M = n / M)%Z as ->.
    { symmetry. apply (Z.div_unique _ _ _ (M - 1)); lia. }
    lia.
  - assert ((n + M - 1) / M = n / M + 1)%Z as ->.
    { symmetry. apply (Z.div_unique _ _ _ (n mod M - 1)); lia. }
    lia.
Qed.

(** *** Configuration failures *)

Lemma fails_bind {A B} (r : result A) (k : A → result B) :
  fails r → fails (r ≫= k).
Proof. intros [e ->]. by exists e. Qed.

Lemma prefix_split_rejects : rejects_nonpositive_train_size prefix_split.
Proof.
  intros df r seed Hr. unfold prefix_split.
  apply Qle_bool_iff in Hr. by rewrite Hr.
Qed.

(** C8. [prepare_dataset] fails whenever val_size + test_size >= 1 (the
    train fraction 1 - val_size - test_size is then not positive and the
    splitter rejects it, unless an earlier step has failed already), and it
    fails whenever [data_format] is neither 'doccano' nor 'csv' (the table
    is then never loaded and its first use raises). *)
Theorem prepare_dataset_fails_on_bad_configuration
    (NERDataSet read_csv : string → result (list Row))
    (train_test_split : list Row → Q → Z → result (list Row * list Row))
    (merge_sentence : option Z) (val_size test_size : Q)
    (dataset_path output_dir data_format : string) (random_state : Z) :
  rejects_nonpositive_train_size train_test_split →
  ((1 <= val_size + test_size)%Q →
   fails (NERDataModule.prepare_dataset NERDataSet read_csv train_test_split
            merge_sentence val_size test_size dataset_path output_dir
            data_format random_state)) ∧
  (data_format ≠ "doccano" → data_format ≠ "csv" →
   NERDataModule.prepare_dataset NERDataSet read_csv train_test_split
     merge_sentence val_size test_size dataset_path output_dir
     data_format random_state = Raise TypeError).
Proof.
  intros Hsplit. unfold NERDataModule.prepare_dataset. split.
  - intros Hsum.
    assert (1 - val_size - test_size <= 0)%Q as Hsize by lra.
    match goal with
    | |- fails (mbind _ ?loaded) => destruct loaded as [[df|]|e]
    end; simpl; [| |by exists e].
    + destruct merge_sentence as [M|]; simpl.
      * destruct (NERDataModule.merge_rows M df) as [new|e]; simpl;
          [|by exists e].
        rewrite (Hsplit _ _ _ Hsize). by exists ValueError.
      * rewrite (Hsplit _ _ _ Hsize). by exists ValueError.
    + destruct merge_sentence; by exists TypeError.
  - intros Hd Hc. rewrite !decide_False by done. simpl.
    by destruct merge_sentence.
Qed.

Lemma prepare_dataset_fails_on_bad_configuration_witness :
  fails (NERDataModule.prepare_dataset
           (λ _, Raise IOError) (λ _, Ok (four_rows ["x O"] ["y O"] ["z O"] ["w O"]))
           prefix_split None (1 # 2) (1 # 2) "all.csv" "out" "csv" 41%Z) ∧
  NERDataModule.prepare_dataset
    (λ _, Raise IOError) (λ _, Ok (four_rows ["x O"] ["y O"] ["z O"] ["w O"]))
    prefix_split None (1 # 2) (1 # 2) "all.csv" "out" "json" 41%Z
  = Raise TypeError.
Proof.
  split.
  - apply (prepare_dataset_fails_on_bad_configuration
             (λ _, Raise IOError)
             (λ _, Ok (four_rows ["x O"] ["y O"] ["z O"] ["w O"]))
             prefix_split None (1 # 2) (1 # 2) "all.csv" "out" "csv" 41%Z
             prefix_split_rejects).
    vm_compute. discriminate.
  - apply (prepare_dataset_fails_on_bad_configuration
             (λ _, Raise IOError)
             (λ _, Ok (four_rows ["x O"] ["y O"] ["z O"] ["w O"]))
             prefix_split None (1 # 2) (1 # 2) "all.csv" "out" "json" 41%Z
             prefix_split_rejects); discriminate.
Defined.

(** A run of the pipeline on a sound configuration, for comparison. *)
Example prepare_dataset_runs :
  succeeds (NERDataModule.prepare_dataset
              (λ _, Raise IOError)
              (λ _, Ok (four_rows ["x O"] ["y O"] ["z O"] ["w O"]))
              prefix_split None (1 # 4) (1 # 4) "all.csv" "out" "csv" 41%Z).
Proof. eexists. vm_compute. reflexivity. Qed.

(** * Further properties of the code *)

(** ** The tag vocabulary *)

Lemma foldl_tag2id_last (tags_list : list string) (n a : nat)
    (d : gmap string nat) (t : string) (j : nat) :
  foldl (λ d i, match tags_list !! i with
                | Some t => <[t := i]> d
                | None => d
                end) d (seq a n) !! t = Some j ↔
  (a ≤ j < a + n ∧ tags_list !! j = Some t ∧
   ∀ k, j < k < a + n → tags_list !! k ≠ Some t) ∨
  (d !! t = Some j ∧ ∀ k, a ≤ k < a + n → tags_list !! k ≠ Some t).
Proof.
  revert a d. induction n as [|n IH]; intros a d; simpl.
  - split; [intros Hd; right; split; [done|intros; lia]|].
    intros [(? & _)|[Hd _]]; [lia|done].
  - rewrite IH. clear IH. split.
    + intros [(Hr & Ht & Hlast)|[Hd Hnone]].
      * left. split; [lia|]. split; [done|]. intros k Hk. apply Hlast. lia.
      * destruct (tags_list !! a) as [u|] eqn:Hu.
        -- destruct (decide (u = t)) as [->|Hne].
           ++ rewrite lookup_insert_eq in Hd. injection Hd as <-.
              left. split; [lia|]. split; [done|].
              intros k Hk. apply Hnone. lia.
           ++ rewrite lookup_insert_ne in Hd by done.
              right. split; [done|]. intros k Hk.
              destruct (decide (k = a)) as [->|]; [congruence|].
              apply Hnone. lia.
        -- right. split; [done|]. intros k Hk.
           destruct (decide (k = a)) as [->|]; [congruence|].
           apply Hnone. lia.
    + intros [(Hr & Ht & Hlast)|[Hd Hnone]].
      * destruct (decide (j = a)) as [->|Hne].
        -- right. rewrite Ht, lookup_insert_eq. split; [done|].
           intros k Hk. apply Hlast. lia.
        -- left. split; [lia|]. split; [done|]. intros k Hk. apply Hlast. lia.
      * right. split.
        -- destruct (tags_list !! a) as [u|] eqn:Hu; [|done].
           rewrite lookup_insert_ne; [done|].
           intros ->. by apply (Hnone a); [lia|].
        -- intros k Hk. apply Hnone. lia.
Qed.

(** X1. [tag2id] maps a tag to the position of its last occurrence in
    [tags_list]: a later assignment overwrites an earlier one, and a tag
    that is not in the list has no entry. *)
Theorem tag2id_is_last_occurrence (tags_list : list string) (t : string) (j : nat) :
  CustomDataset.build_tag2id tags_list !! t = Some j ↔
  tags_list !! j = Some t ∧ ∀ k, j < k → tags_list !! k ≠ Some t.
Proof.
  unfold CustomDataset.build_tag2id. rewrite foldl_tag2id_last. split.
  - intros [(Hr & Ht & Hlast)|[Hd _]]; [|by rewrite lookup_empty in Hd].
    split; [done|]. intros k Hk.
    destruct (decide (k < length tags_list)) as [Hlt|Hge]; [apply Hlast; lia|].
    rewrite lookup_ge_None_2 by lia. done.
  - intros [Ht Hlast]. left. apply lookup_lt_Some in Ht as Hlt.
    split; [lia|]. split; [done|]. intros k Hk. apply Hlast. lia.
Qed.

(** X2. For a duplicate-free [tags_list], [tag2id] is the inverse of the
    list: a tag has id [j] exactly when it stands at position [j], so
    distinct tags have distinct ids and every position below the length of
    the list is the id of its tag. *)
Theorem tag2id_inverts_duplicate_free_list (tags_list : list string)
    (t : string) (j : nat) :
  NoDup tags_list →
  (CustomDataset.build_tag2id tags_list !! t = Some j ↔ tags_list !! j = Some t).
Proof.
  intros Hnd. rewrite tag2id_is_last_occurrence. split; [by intros [? _]|].
  intros Ht. split; [done|]. intros k Hk Hkt.
  pose proof (NoDup_lookup _ _ _ _ Hnd Ht Hkt). lia.
Qed.

Lemma tag2id_inverts_duplicate_free_list_witness :
  CustomDataset.build_tag2id ["B-PERSON"; "I-PERSON"; "O"] !! "O" = Some 2 ↔
  ["B-PERSON"; "I-PERSON"; "O"] !! 2 = Some "O".
Proof.
  apply (tag2id_inverts_duplicate_free_list ["B-PERSON"; "I-PERSON"; "O"] "O" 2).
  apply (bool_decide_unpack _). vm_compute. exact I.
Defined.

(** ** Labels and the words they belong to *)

(** X3. A label that is not the ignore sentinel sits at a position that the
    tokenizer attributes to some word [w]; the record has a line of index
    [w], and the label is the position in [tags_list] of the last field of
    that line. *)
Theorem real_label_is_tag_of_its_word
    (tokenizer : string → nat → BatchEncoding) (tags_list : list string)
    (max_seq_length : nat) (label_all_tokens : bool) (data_point : list string) :
  ∃ ex,
    CustomDataset._tokenize_and_align_labels tokenizer
      (CustomDataset.build_tag2id tags_list) max_seq_length label_all_tokens
      data_point = Ok ex ∧
    ∀ p id, ex_labels ex !! p = Some id → id ≠ IGNORE →
      ∃ w line,
        word_ids (tokenizer (join " " (first_field <$> data_point))
                    max_seq_length) !! p = Some (Some w) ∧
        data_point !! w = Some line ∧
        (0 ≤ id)%Z ∧
        tags_list !! Z.to_nat id = Some (last_field line).
Proof.
  rewrite tokenize_and_align_labels_ok. eexists. split; [done|]. simpl.
  intros p id Hp Hreal. rewrite walk_lookup in Hp.
  destruct (word_ids _ !! p) as [word_idx|] eqn:Hw; [|done].
  injection Hp as <-.
  destruct (step_label_range (CustomDataset.build_tag2id tags_list)
              (last_field <$> data_point) label_all_tokens
              (prev_at None (word_ids (tokenizer (join " " (first_field <$> data_point))
                                         max_seq_length)) p) word_idx)
    as [Hign|(w & j & label & -> & Hlabel & Hj & Hid)]; [done|].
  rewrite list_lookup_fmap in Hlabel.
  destruct (data_point !! w) as [line|] eqn:Hline; [|done].
  injection Hlabel as <-. exists w, line. rewrite Hid.
  destruct (build_tag2id_index _ _ _ Hj) as [_ Ht].
  split; [done|]. split; [done|]. split; [lia|]. by rewrite Nat2Z.id.
Qed.

Lemma real_label_is_tag_of_its_word_witness :
  ∃ ex,
    CustomDataset._tokenize_and_align_labels char_tokenizer
      (CustomDataset.build_tag2id ["B-PERSON"; "I-PERSON"; "O"]) 8 false
      ["Jo B-PERSON"; "Sm I-PERSON"] = Ok ex ∧
    ∀ p id, ex_labels ex !! p = Some id → id ≠ IGNORE →
      ∃ w line,
        word_ids (char_tokenizer "Jo Sm" 8) !! p = Some (Some w) ∧
        ["Jo B-PERSON"; "Sm I-PERSON"] !! w = Some line ∧
        (0 ≤ id)%Z ∧
        ["B-PERSON"; "I-PERSON"; "O"] !! Z.to_nat id = Some (last_field line).
Proof.
  exact (real_label_is_tag_of_its_word char_tokenizer
           ["B-PERSON"; "I-PERSON"; "O"] 8 false ["Jo B-PERSON"; "Sm I-PERSON"]).
Defined.

(** X4. With [label_all_tokens = true] every position that the tokenizer
    attributes to a word carries the label of that word: the id of its tag,
    or the ignore sentinel when the tag lookup fails. *)
Theorem all_subwords_carry_the_word_label
    (tokenizer : string → nat → BatchEncoding) (tag2id : gmap string nat)
    (max_seq_length : nat) (data_point : list string) (p w : nat) :
  word_ids (tokenizer (join " " (first_field <$> data_point)) max_seq_length)
    !! p = Some (Some w) →
  ∃ ex,
    CustomDataset._tokenize_and_align_labels tokenizer tag2id max_seq_length
      true data_point = Ok ex ∧
    ex_labels ex !! p
      = Some (try_except
                (CustomDataset.tag_id tag2id (last_field <$> data_point) w)
                IGNORE).
Proof.
  intros Hp. rewrite tokenize_and_align_labels_ok. eexists. split; [done|].
  simpl. rewrite walk_lookup, Hp. simpl. unfold step_label.
  by destruct (decide _).
Qed.

Lemma all_subwords_carry_the_word_label_witness :
  ∃ ex,
    CustomDataset._tokenize_and_align_labels char_tokenizer
      (CustomDataset.build_tag2id ["B-PERSON"; "I-PERSON"; "O"]) 8 true
      ["Jo B-PERSON"; "Sm I-PERSON"] = Ok ex ∧
    ex_labels ex !! 4 = Some 1%Z.
Proof.
  apply (all_subwords_carry_the_word_label char_tokenizer
           (CustomDataset.build_tag2id ["B-PERSON"; "I-PERSON"; "O"]) 8
           ["Jo B-PERSON"; "Sm I-PERSON"] 4 1).
  reflexivity.
Defined.

(** ** The container and the records it is built from *)

Lemma comprehension_lookup {A B} (f : A → result B) (l : list A) (r : list B)
    (i : nat) (x : A) :
  comprehension f l = Ok r → l !! i = Some x →
  ∃ y, f x = Ok y ∧ r !! i = Some y.
Proof.
  revert r i. induction l as [|a l IH]; intros r i; simpl; [done|].
  destruct (f a) as [b|] eqn:Hb; [|done]. simpl.
  destruct (comprehension f l) as [bs|]; [|done]. simpl.
  intros [= <-]. destruct i as [|i]; simpl.
  - intros [= <-]. by exists b.
  - intros Hx. by apply IH.
Qed.

Lemma init_dataset tokenizer content tags_list max_seq_length label_all_tokens :
  ∃ ds,
    CustomDataset.__init__ tokenizer content tags_list max_seq_length
      label_all_tokens = Ok ds ∧
    comprehension
      (CustomDataset._tokenize_and_align_labels tokenizer
         (CustomDataset.build_tag2id tags_list) max_seq_length label_all_tokens)
      (CustomDataset.read_data content) = Ok (CustomDataset.dataset ds).
Proof.
  unfold CustomDataset.__init__.
  destruct (comprehension _ (CustomDataset.read_data content)) as [exs|e] eqn:Hc.
  - simpl. eexists. split; [reflexivity|]. done.
  - erewrite comprehension_total in Hc;
      [done|intros x; apply tokenize_and_align_labels_ok].
Qed.

(** X5. Building a container succeeds for every file content. Its length is
    one less than the number of lines that hold nothing, or NUL characters
    only, before their terminator (the lines numpy takes for blank lines),
    and 0 for a file without such a line; the example at index [i] is the
    alignment of the [i]-th record that [read_data] returns. *)
Theorem container_holds_one_example_per_record
    (tokenizer : string → nat → BatchEncoding) (content : string)
    (tags_list : list string) (max_seq_length : nat) (label_all_tokens : bool) :
  ∃ ds,
    CustomDataset.__init__ tokenizer content tags_list max_seq_length
      label_all_tokens = Ok ds ∧
    Z.of_nat (CustomDataset.__len__ ds) = Z.max 0 (np_blank_lines content - 1) ∧
    ∀ i record,
      CustomDataset.read_data content !! i = Some record →
      ∃ ex,
        CustomDataset._tokenize_and_align_labels tokenizer
          (CustomDataset.build_tag2id tags_list) max_seq_length
          label_all_tokens record = Ok ex ∧
        CustomDataset.__getitem__ ds (Z.of_nat i) = Ok ex.
Proof.
  destruct (init_dataset tokenizer content tags_list max_seq_length
              label_all_tokens) as (ds & Hds & Hc).
  exists ds. split; [done|]. split.
  - unfold CustomDataset.__len__. rewrite (comprehension_length _ _ _ Hc).
    unfold CustomDataset.read_data, np_blank_lines.
    rewrite read_records_length, filter_np_blank_clean. lia.
  - intros i record Hi.
    destruct (comprehension_lookup _ _ _ _ _ Hc Hi) as (ex & Hex & Hlook).
    exists ex. split; [done|]. by apply list_getitem_nonneg.
Qed.

Lemma container_holds_one_example_per_record_witness :
  ∃ ds,
    CustomDataset.__init__ char_tokenizer example_corpus
      ["B-PERSON"; "I-PERSON"; "O"] 8 false = Ok ds ∧
    Z.of_nat (CustomDataset.__len__ ds)
      = Z.max 0 (np_blank_lines example_corpus - 1) ∧
    ∀ i record,
      CustomDataset.read_data example_corpus !! i = Some record →
      ∃ ex,
        CustomDataset._tokenize_and_align_labels char_tokenizer
          (CustomDataset.build_tag2id ["B-PERSON"; "I-PERSON"; "O"]) 8 false
          record = Ok ex ∧
        CustomDataset.__getitem__ ds (Z.of_nat i) = Ok ex.
Proof.
  exact (container_holds_one_example_per_record char_tokenizer example_corpus
           ["B-PERSON"; "I-PERSON"; "O"] 8 false).
Defined.

(** ** The text handed to the tokenizer *)

Lemma split_fields_no_sep sep s : Forall (no_char sep) (split sep s).
Proof.
  induction s as [|c s IH]; simpl.
  - repeat constructor. unfold no_char. simpl. apply not_elem_of_nil.
  - destruct (decide (c = sep)).
    + constructor; [|done]. unfold no_char. simpl. apply not_elem_of_nil.
    + pose proof (split_nonempty sep s) as Hne.
      destruct (split sep s) as [|f fs]; [done|].
      apply Forall_cons in IH as [Hf Hfs]. constructor; [|done].
      by apply no_char_cons.
Qed.

Lemma split_join sep ws :
  ws ≠ [] → Forall (no_char sep) ws →
  split sep (join (String sep EmptyString) ws) = ws.
Proof.
  induction ws as [|w ws IH]; [done|]. intros _ Hws.
  apply Forall_cons in Hws as [Hw Hws].
  destruct ws as [|w' ws].
  - simpl. by apply split_no_char.
  - change (split sep (w +:+ String sep (join (String sep EmptyString) (w' :: ws)))
            = w :: w' :: ws).
    rewrite split_prefix by done. f_equal. by apply IH.
Qed.

(** X6. The words of a record never hold a space, and the text handed to
    the tokenizer, cut at its spaces again, gives back the word list: the
    text has one space-separated field per line of the record. *)
Theorem text_fields_are_the_words (data_point : list string) :
  data_point ≠ [] →
  ∃ words,
    CustomDataset.word_list data_point = Ok words ∧
    length words = length data_point ∧
    Forall (no_char space) words ∧
    split space (join " " words) = words.
Proof.
  intros Hne. exists (first_field <$> data_point).
  assert (Forall (no_char space) (first_field <$> data_point)) as Hws.
  { apply Forall_fmap, Forall_forall. intros line _. simpl.
    unfold first_field. pose proof (split_fields_no_sep space line) as Hf.
    destruct (split space line) as [|f fs]; simpl.
    - unfold no_char. simpl. apply not_elem_of_nil.
    - by apply Forall_cons in Hf as [? _]. }
  split; [apply word_list_ok|]. split; [by rewrite length_fmap|].
  split; [done|]. apply (split_join space); [|done].
  by destruct data_point.
Qed.

Lemma text_fields_are_the_words_witness :
  ∃ words,
    CustomDataset.word_list ["New York B-LOC"; "is O"] = Ok words ∧
    length words = length ["New York B-LOC"; "is O"] ∧
    Forall (no_char space) words ∧
    split space (join " " words) = words.
Proof.
  apply (text_fields_are_the_words ["New York B-LOC"; "is O"]). discriminate.
Defined.

(** ** The merge step *)

Lemma value_counts_top_most_frequent col v :
  value_counts_top col = Ok v →
  v ∈ col ∧ ∀ x, occurrences x col ≤ occurrences v col.
Proof.
  destruct col as [|v0 vs]; [done|]. simpl. intros [= <-].
  set (col := v0 :: vs).
  set (step := λ best x,
         if decide (occurrences best col < occurrences x col) then x else best).
  assert (∀ seen best,
            best ∈ col → (∀ x, x ∈ seen → occurrences x col ≤ occurrences best col) →
            ∀ rest, (∀ x, x ∈ rest → x ∈ col) →
            foldl step best rest ∈ col ∧
            ∀ x, x ∈ seen ++ rest →
                 occurrences x col ≤ occurrences (foldl step best rest) col)
    as Hinv.
  { intros seen best Hbest Hseen rest. revert seen best Hbest Hseen.
    induction rest as [|y rest IH]; intros seen best Hbest Hseen Hrest; simpl.
    - split; [done|]. intros x. rewrite app_nil_r. apply Hseen.
    - destruct (IH (seen ++ [y]) (step best y)) as [Hin Hmax].
      + unfold step. destruct (decide _); [apply Hrest; by left|done].
      + intros x [Hx|Hx%list_elem_of_singleton]%elem_of_app.
        * specialize (Hseen x Hx). unfold step. destruct (decide _); lia.
        * subst x. unfold step. destruct (decide _); lia.
      + intros x Hx. apply Hrest. by right.
      + split; [done|]. intros x Hx. apply Hmax.
        rewrite <- app_assoc. done. }
  destruct (Hinv [v0] v0) with (rest := vs) as [Hin Hmax].
  - by left.
  - by intros x ->%list_elem_of_singleton.
  - intros x Hx. by right.
  - split; [done|]. intros x.
    destruct (decide (x ∈ col)) as [Hx|Hx]; [by apply Hmax|].
    unfold occurrences at 1.
    rewrite (proj2 (length_zero_iff_nil _)); [lia|].
    apply elem_of_nil_inv. intros y [-> Hy]%list_elem_of_filter. done.
Qed.

(** X7. For a positive merge factor M, the row of index [k] of the merged
    table is built from the [k]-th chunk of M consecutive rows: its
    tag-sequence is the concatenation of the chunk's tag-sequences in
    order, and its source is a source of the chunk that no other value
    outnumbers in the chunk. *)
Theorem merged_row_comes_from_its_chunk (M : Z) (df rows : list Row)
    (k : nat) (row : Row) :
  (0 < M)%Z →
  NERDataModule.merge_rows M df = Ok rows →
  rows !! k = Some row →
  let chunk := slice df (k * Z.to_nat M) (k * Z.to_nat M + Z.to_nat M) in
  conll_label row = concat (conll_label <$> chunk) ∧
  source row ∈ source <$> chunk ∧
  ∀ x, occurrences x (source <$> chunk) ≤ occurrences (source row) (source <$> chunk).
Proof.
  intros HM Hrows Hk chunk. rewrite merge_rows_chunks in Hrows by done.
  injection Hrows as <-. rewrite list_lookup_fmap in Hk.
  destruct (seq 0 _ !! k) as [k'|] eqn:Hseq; [|done].
  apply lookup_seq in Hseq as [-> Hlt]. simpl in Hk. injection Hk as <-.
  fold chunk. split; [done|]. unfold merged_chunk. simpl.
  assert (chunk ≠ []) as Hne.
  { intros Hnil. apply (f_equal length) in Hnil. unfold chunk, slice in Hnil.
    rewrite length_drop, length_take in Hnil. simpl in Hnil.
    set (n := Z.of_nat (length df)) in *.
    pose proof (Z.mul_div_le (n + M - 1) M HM).
    assert (Z.of_nat k + 2 ≤ (n + M - 1) / M)%Z by lia.
    assert (Z.of_nat k * M < n)%Z by nia.
    assert (Z.to_nat (Z.of_nat k * M) = k * Z.to_nat M) as Hkm
      by (rewrite Z2Nat.inj_mul, Nat2Z.id; lia).
    lia. }
  destruct (value_counts_top_ok (source <$> chunk)) as [v Hv].
  { by destruct chunk. }
  rewrite Hv. simpl. by apply value_counts_top_most_frequent.
Qed.

Lemma merged_row_comes_from_its_chunk_witness :
  conll_label {| source := Some "a"; conll_label := ["x O"; "y O"] |}
    = concat (conll_label <$> slice (four_rows ["x O"] ["y O"] ["z O"] ["w O"]) 0 2) ∧
  Some "a" ∈ source <$> slice (four_rows ["x O"] ["y O"] ["z O"] ["w O"]) 0 2 ∧
  ∀ x, occurrences x (source <$> slice (four_rows ["x O"] ["y O"] ["z O"] ["w O"]) 0 2)
       ≤ occurrences (Some "a")
           (source <$> slice (four_rows ["x O"] ["y O"] ["z O"] ["w O"]) 0 2).
Proof.
  apply (merged_row_comes_from_its_chunk 2
           (four_rows ["x O"] ["y O"] ["z O"] ["w O"])
           [ {| source := Some "a"; conll_label := ["x O"; "y O"] |} ] 0
           {| source := Some "a"; conll_label := ["x O"; "y O"] |}).
  - lia.
  - reflexivity.
  - reflexivity.
Defined.

(** X8. For a positive merge factor M the merge step succeeds; on a table
    of n rows it returns n/M rows when M does not divide n, and n/M - 1
    rows (none for the empty table) when it does. *)
Theorem merge_rows_row_count (M : Z) (df : list Row) :
  (0 < M)%Z →
  ∃ rows, NERDataModule.merge_rows M df = Ok rows ∧
    Z.of_nat (length rows)
    = if (Z.of_nat (length df) mod M =? 0)%Z
      then Z.max 0 (Z.of_nat (length df) / M - 1)
      else (Z.of_nat (length df) / M)%Z.
Proof. apply merge_rows_length. Qed.

Lemma merge_rows_row_count_witness :
  ∃ rows,
    NERDataModule.merge_rows 3 (four_rows ["x O"] ["y O"] ["z O"] ["w O"]) = Ok rows ∧
    Z.of_nat (length rows) = 1%Z.
Proof.
  apply (merge_rows_row_count 3 (four_rows ["x O"] ["y O"] ["z O"] ["w O"])). lia.
Defined.

(** X9. A merge factor of 0 makes the merge step fail with [ValueError]
    (a range with step 0), and a negative one makes it return the empty
    table, whatever the table holds. *)
Theorem merge_rows_nonpositive_factor (M : Z) (df : list Row) :
  (M = 0%Z → NERDataModule.merge_rows M df = Raise ValueError) ∧
  ((M < 0)%Z → NERDataModule.merge_rows M df = Ok []).
Proof.
  unfold NERDataModule.merge_rows, py_range, range_len. split.
  - intros ->. reflexivity.
  - intros HM.
    destruct (Z.eqb_spec M 0) as [?|_]; [lia|].
    destruct (Z.ltb_spec 0 M) as [?|_]; [lia|].
    destruct (Z.ltb_spec M 0) as [_|?]; [|lia].
    assert ((0 - Z.of_nat (length df) - M - 1) / - M < 1)%Z as Hlen
      by (apply Z.div_lt_upper_bound; lia).
    replace (Z.to_nat (Z.max 0 ((0 - Z.of_nat (length df) - M - 1) / - M)))
      with 0 by lia.
    reflexivity.
Qed.

Lemma merge_rows_nonpositive_factor_witness :
  NERDataModule.merge_rows 0 (four_rows ["x O"] ["y O"] ["z O"] ["w O"])
    = Raise ValueError ∧
  NERDataModule.merge_rows (-2) (four_rows ["x O"] ["y O"] ["z O"] ["w O"])
    = Ok [].
Proof.
  split.
  - apply (merge_rows_nonpositive_factor 0
             (four_rows ["x O"] ["y O"] ["z O"] ["w O"])). reflexivity.
  - apply (merge_rows_nonpositive_factor (-2)
             (four_rows ["x O"] ["y O"] ["z O"] ["w O"])). lia.
Defined.

Lemma take_slice {A} (l : list A) (a b : nat) :
  take (a + b) l = take a l ++ slice l a (a + b).
Proof.
  unfold slice. rewrite <- (take_drop a (take (a + b) l)) at 1.
  by rewrite take_take, Nat.min_l by lia.
Qed.

(** X10. For a positive merge factor M the merged table holds, in order,
    exactly the corpus lines of the first (number of merged rows) x M rows
    of the table: merging reorders nothing, and what it loses is the rows
    from the last start index on. *)
Theorem merge_rows_keeps_lines_in_order (M : Z) (df : list Row) :
  (0 < M)%Z →
  ∃ rows, NERDataModule.merge_rows M df = Ok rows ∧
    concat (conll_label <$> rows)
    = concat (conll_label <$> take (length rows * Z.to_nat M) df).
Proof.
  intros HM. rewrite merge_rows_chunks by done. eexists. split; [done|].
  rewrite length_fmap, length_seq.
  induction (Z.to_nat ((Z.of_nat (length df) + M - 1) / M) - 1) as [|L IH];
    [done|].
  rewrite seq_S, !fmap_app, concat_app, IH. simpl.
  rewrite app_nil_r.
  replace (Z.to_nat M + L * Z.to_nat M) with (L * Z.to_nat M + Z.to_nat M) by lia.
  by rewrite (take_slice df), fmap_app, concat_app.
Qed.

Lemma merge_rows_keeps_lines_in_order_witness :
  ∃ rows,
    NERDataModule.merge_rows 3 (four_rows ["x O"] ["y O"] ["z O"] ["w O"]) = Ok rows ∧
    concat (conll_label <$> rows)
    = concat (conll_label
                <$> take (length rows * Z.to_nat 3)
                      (four_rows ["x O"] ["y O"] ["z O"] ["w O"])).
Proof.
  apply (merge_rows_keeps_lines_in_order 3
           (four_rows ["x O"] ["y O"] ["z O"] ["w O"])). lia.
Defined.

(** ** Writing a partition *)

Lemma append_assoc (a b c : string) : (a +:+ b) +:+ c = a +:+ b +:+ c.
Proof.
  induction a as [|x a IH]; [done|].
  change (String x ((a +:+ b) +:+ c) = String x (a +:+ b +:+ c)). by rewrite IH.
Qed.

Lemma append_nil_r (a : string) : a +:+ EmptyString = a.
Proof.
  induction a as [|x a IH]; [done|].
  change (String x (a +:+ EmptyString) = String x a). by rewrite IH.
Qed.

Lemma file_of_lines_app (a b : list string) :
  file_of_lines (a ++ b) = file_of_lines a +:+ file_of_lines b.
Proof.
  induction a as [|l a IH]; [done|].
  change (l +:+ nl +:+ file_of_lines (a ++ b)
          = (l +:+ nl +:+ file_of_lines a) +:+ file_of_lines b).
  by rewrite IH, !append_assoc.
Qed.

Lemma join_nl_file_of_lines (ls : list string) :
  ls ≠ [] → join nl ls +:+ nl = file_of_lines ls.
Proof.
  induction ls as [|l ls IH]; [done|]. intros _.
  destruct ls as [|l' ls].
  - simpl. by rewrite append_nil_r.
  - change (join nl (l :: l' :: ls)) with (l +:+ nl +:+ join nl (l' :: ls)).
    change (file_of_lines (l :: l' :: ls))
      with (l +:+ nl +:+ file_of_lines (l' :: ls)).
    rewrite !append_assoc. by rewrite IH.
Qed.

Lemma write_to_file_from (file : string) (df_data : list Row) :
  foldl (λ file item, file +:+ join nl (conll_label item) +:+ nl +:+ nl)
    file df_data
  = file +:+ NERDataModule.write_to_file df_data.
Proof.
  unfold NERDataModule.write_to_file. revert file.
  induction df_data as [|r rows IH]; intros file.
  - simpl. by rewrite append_nil_r.
  - cbn [foldl].
    rewrite (IH (file +:+ join nl (conll_label r) +:+ nl +:+ nl)).
    rewrite (IH (EmptyString +:+ join nl (conll_label r) +:+ nl +:+ nl)).
    change (EmptyString +:+ join nl (conll_label r) +:+ nl +:+ nl)
      with (join nl (conll_label r) +:+ nl +:+ nl).
    by rewrite !append_assoc.
Qed.

(** X11. Writing two tables one after the other gives the file of the
    first followed by the file of the second: every row is written on its
    own, in table order. *)
Theorem write_to_file_app (a b : list Row) :
  NERDataModule.write_to_file (a ++ b)
  = NERDataModule.write_to_file a +:+ NERDataModule.write_to_file b.
Proof.
  unfold NERDataModule.write_to_file at 1. rewrite foldl_app.
  fold (NERDataModule.write_to_file a). apply write_to_file_from.
Qed.

Lemma write_to_file_row (r : Row) :
  NERDataModule.write_to_file [r] = file_of_lines (lines_of_row r).
Proof.
  unfold lines_of_row.
  change (NERDataModule.write_to_file [r])
    with (join nl (conll_label r) +:+ nl +:+ nl).
  destruct (conll_label r) as [|l ls]; [reflexivity|].
  rewrite file_of_lines_app.
  change (file_of_lines [EmptyString]) with nl.
  rewrite <- (join_nl_file_of_lines (l :: ls)) by done.
  by rewrite append_assoc.
Qed.

(** X12. The file written for a table consists, row after row, of the
    row's corpus lines followed by one blank line, every line closed by a
    newline; a row without corpus lines contributes two blank lines. *)
Theorem write_to_file_lines (df_data : list Row) :
  NERDataModule.write_to_file df_data
  = file_of_lines (concat (lines_of_row <$> df_data)).
Proof.
  induction df_data as [|r rows IH]; [done|].
  change (r :: rows) with ([r] ++ rows).
  rewrite write_to_file_app, IH, fmap_app, concat_app, file_of_lines_app.
  f_equal. rewrite write_to_file_row. f_equal.
  change (concat (lines_of_row <$> [r])) with (lines_of_row r ++ []).
  by rewrite app_nil_r.
Qed.

(** ** The records of a corpus, in general *)

Lemma filter_where_from (l : list string) (v : string) (a : nat) :
  filter (λ i, l !! (i - a) = Some v) (seq a (length l)) = where_from a l v.
Proof.
  revert a. induction l as [|x l IH]; intros a; [done|].
  simpl. rewrite filter_cons, Nat.sub_diag. simpl.
  rewrite (filter_ext_elem (λ i, (x :: l) !! (i - a) = Some v)
             (λ i, l !! (i - S a) = Some v)).
  - rewrite IH.
    destruct (decide (Some x = Some v)) as [Hx|Hx], (decide (x = v)) as [Hv|Hv];
      try done; congruence.
  - intros i Hi. apply elem_of_seq in Hi.
    replace (i - a) with (S (i - S a)) by lia. done.
Qed.

Lemma np_where_eq_where_from lines v :
  np_where_eq lines v = where_from 0 (np_array lines) (np_unpad v).
Proof.
  unfold np_where_eq. rewrite <- filter_where_from.
  apply filter_ext_elem. intros i _. by rewrite Nat.sub_0_r.
Qed.

Lemma where_from_app a l1 l2 v :
  where_from a (l1 ++ l2) v = where_from a l1 v ++ where_from (a + length l1) l2 v.
Proof.
  revert a. induction l1 as [|x l1 IH]; intros a; simpl.
  - by rewrite Nat.add_0_r.
  - rewrite IH. replace (S a + length l1) with (a + S (length l1)) by lia.
    by destruct (decide (x = v)).
Qed.

Lemma where_from_none a l v :
  Forall (λ x, x ≠ v) l → where_from a l v = [].
Proof.
  revert a. induction l as [|x l IH]; intros a Hl; [done|].
  apply Forall_cons in Hl as [Hx Hl]. simpl.
  rewrite decide_False by done. by apply IH.
Qed.

Lemma spans_lookup (lines : list string) (bs : list nat) :
  (λ i,
     let start_idx := bs !!! i in
     let end_idx := bs !!! (i + 1) in
     let start_idx :=
       if decide (start_idx ≠ 0) then start_idx + 1 else start_idx in
     slice lines start_idx end_idx) <$> seq 0 (length bs - 1)
  = spans lines bs.
Proof.
  induction bs as [|b bs IH]; [done|].
  destruct bs as [|e bs]; [done|].
  replace (length (b :: e :: bs) - 1) with (S (length (e :: bs) - 1))
    by (simpl; lia).
  rewrite <- cons_seq, fmap_cons, <- fmap_S_seq, <- list_fmap_compose.
  change (spans lines (b :: e :: bs))
    with (slice lines (if decide (b ≠ 0) then b + 1 else b) e
            :: spans lines (e :: bs)).
  rewrite <- IH. f_equal.
Qed.

Lemma read_records_spans lines :
  CustomDataset.read_records lines = spans lines (np_where_eq lines EmptyString).
Proof. unfold CustomDataset.read_records. apply spans_lookup. Qed.

Lemma sentence_ends_where (o : nat) (sentences : list (list string))
    (rest : list string) :
  Forall (Forall (λ x, x ≠ EmptyString)) sentences →
  Forall (λ x, x ≠ EmptyString) rest →
  where_from o (concat ((λ s, s ++ [EmptyString]) <$> sentences) ++ rest)
    EmptyString
  = sentence_ends o sentences.
Proof.
  intros Hss Hrest. revert o.
  induction sentences as [|s ss IH]; intros o; simpl.
  - by apply where_from_none.
  - apply Forall_cons in Hss as [Hs Hss].
    rewrite <- !app_assoc, where_from_app, (where_from_none _ s) by done.
    simpl. f_equal.
    replace (S (o + length s)) with (o + length s + 1) by lia.
    apply (IH Hss).
Qed.

Lemma slice_middle {A} (a s c : list A) :
  slice (a ++ s ++ c) (length a) (length a + length s) = s.
Proof.
  unfold slice. rewrite app_assoc, take_app_length' by (rewrite length_app; lia).
  by rewrite drop_app_length.
Qed.

Lemma corpus_lines_cons (pre s : list string) (ss : list (list string))
    (rest : list string) :
  corpus_lines pre (s :: ss) rest
  = corpus_lines (pre ++ EmptyString :: s) ss rest.
Proof.
  unfold corpus_lines. rewrite fmap_cons, concat_cons.
  generalize (concat ((λ s0, s0 ++ [EmptyString]) <$> ss)). intros C.
  rewrite <- ?app_assoc. simpl. by rewrite <- ?app_assoc.
Qed.

Lemma corpus_lines_slice (pre s : list string) (ss : list (list string))
    (rest : list string) :
  slice (corpus_lines pre (s :: ss) rest) (length pre + 1)
    (length pre + 1 + length s) = s.
Proof.
  unfold corpus_lines. rewrite fmap_cons, concat_cons.
  generalize (concat ((λ s0, s0 ++ [EmptyString]) <$> ss)). intros C.
  replace (pre ++ EmptyString :: ((s ++ [EmptyString]) ++ C) ++ rest)
    with ((pre ++ [EmptyString]) ++ s ++ (EmptyString :: C ++ rest))
    by (rewrite <- ?app_assoc; simpl; by rewrite <- ?app_assoc).
  replace (length pre + 1) with (length (pre ++ [EmptyString]))
    by (rewrite length_app; simpl; lia).
  apply slice_middle.
Qed.

Lemma spans_sentences (pre : list string) (sentences : list (list string))
    (rest : list string) :
  pre ≠ [] →
  spans (corpus_lines pre sentences rest)
    (length pre :: sentence_ends (length pre + 1) sentences)
  = sentences.
Proof.
  revert pre. induction sentences as [|s ss IH]; intros pre Hpre; [done|].
  change (sentence_ends (length pre + 1) (s :: ss))
    with ((length pre + 1 + length s)
            :: sentence_ends (length pre + 1 + length s + 1) ss).
  cbn [spans]. f_equal.
  - rewrite decide_True by (by destruct pre). apply corpus_lines_slice.
  - rewrite corpus_lines_cons.
    replace (length pre + 1 + length s) with (length (pre ++ EmptyString :: s))
      by (rewrite length_app; simpl; lia).
    apply IH. by destruct pre.
Qed.

Lemma np_array_corpus_lines first sentences rest :
  np_array (corpus_lines first sentences rest)
  = corpus_lines (np_array first) (np_array <$> sentences) (np_array rest).
Proof.
  unfold corpus_lines, np_array. rewrite fmap_app, fmap_cons, fmap_app.
  do 3 f_equal. induction sentences as [|s ss IH]; [done|].
  rewrite !fmap_cons, !concat_cons, !fmap_app, IH. done.
Qed.

Lemma sentence_ends_np_array o sentences :
  sentence_ends o (np_array <$> sentences) = sentence_ends o sentences.
Proof.
  revert o. induction sentences as [|s ss IH]; intros o; [done|].
  rewrite fmap_cons. cbn [sentence_ends]. unfold np_array at 1 2.
  by rewrite length_fmap, IH.
Qed.

(** X13. On cleaned lines cut at their empty lines, where no other line
    is made of NUL characters only, the records that [read_data] builds
    are the groups of lines between consecutive empty lines, in order: the
    lines before the first empty line and the lines after the last one
    belong to no record. When the very first line is empty, the first
    record starts with that empty line. *)
Theorem read_records_between_blank_lines (first : list string)
    (sentences : list (list string)) (rest : list string) :
  Forall (λ x, np_unpad x ≠ EmptyString) first →
  Forall (Forall (λ x, np_unpad x ≠ EmptyString)) sentences →
  Forall (λ x, np_unpad x ≠ EmptyString) rest →
  CustomDataset.read_records (corpus_lines first sentences rest)
  = match first, sentences with
    | [], s :: ss => (EmptyString :: s) :: ss
    | _, _ => sentences
    end.
Proof.
  intros Hfirst Hss Hrest.
  rewrite read_records_spans, np_where_eq_where_from.
  assert (where_from 0 (np_array (corpus_lines first sentences rest))
            (np_unpad EmptyString)
          = length first :: sentence_ends (length first + 1) sentences) as ->.
  { rewrite np_array_corpus_lines. change (np_unpad EmptyString) with EmptyString.
    assert (Forall (λ x, x ≠ EmptyString) (np_array first)) as Hf
      by by apply Forall_fmap.
    assert (Forall (λ x, x ≠ EmptyString) (np_array rest)) as Hr
      by by apply Forall_fmap.
    assert (Forall (Forall (λ x, x ≠ EmptyString)) (np_array <$> sentences))
      as Hs.
    { apply Forall_fmap. eapply Forall_impl; [exact Hss|].
      intros s' Hs'. by apply Forall_fmap. }
    unfold corpus_lines.
    rewrite where_from_app, (where_from_none _ (np_array first)) by done.
    cbn [where_from app]. rewrite decide_True by done.
    unfold np_array at 1 2. rewrite length_fmap. f_equal.
    replace (S (0 + length first)) with (length first + 1) by lia.
    rewrite sentence_ends_where by done. apply sentence_ends_np_array. }
  destruct first as [|l first]; [|by apply spans_sentences].
  destruct sentences as [|s ss]; [done|].
  change (sentence_ends (length (@nil string) + 1) (s :: ss))
    with ((1 + length s) :: sentence_ends (1 + length s + 1) ss).
  cbn [spans]. rewrite decide_False by (simpl; lia). f_equal.
  - unfold corpus_lines. rewrite fmap_cons, concat_cons.
    generalize (concat ((λ s0, s0 ++ [EmptyString]) <$> ss)). intros C.
    unfold slice. rewrite drop_0.
    replace ([] ++ EmptyString :: ((s ++ [EmptyString]) ++ C) ++ rest)
      with ((EmptyString :: s) ++ (EmptyString :: C ++ rest))
      by (simpl; by rewrite <- ?app_assoc).
    by apply take_app_length'.
  - rewrite corpus_lines_cons.
    change ([] ++ EmptyString :: s) with (EmptyString :: s).
    change (1 + length s) with (length (EmptyString :: s)).
    by apply spans_sentences.
Qed.

Lemma read_records_between_blank_lines_witness :
  CustomDataset.read_records
    (corpus_lines ["John B-PERSON"] [["Jane B-PERSON"; "Doe I-PERSON"]; ["x O"]]
       ["y O"])
  = [["Jane B-PERSON"; "Doe I-PERSON"]; ["x O"]].
Proof.
  apply (read_records_between_blank_lines ["John B-PERSON"]
           [["Jane B-PERSON"; "Doe I-PERSON"]; ["x O"]] ["y O"]).
  - apply (bool_decide_unpack _). vm_compute. exact I.
  - apply (bool_decide_unpack _). vm_compute. exact I.
  - apply (bool_decide_unpack _). vm_compute. exact I.
Defined.

(** ** Reading back what [write_to_file] wrote *)

Lemma readlines_from_line (cur l rest : string) :
  no_char newline l →
  readlines_from cur (l +:+ String newline rest)
  = (cur +:+ l +:+ nl) :: readlines_from EmptyString rest.
Proof.
  revert cur. induction l as [|c l IH]; intros cur Hl.
  - change (readlines_from cur (String newline rest)
            = (cur +:+ nl) :: readlines_from EmptyString rest).
    cbn [readlines_from]. by rewrite decide_True.
  - apply no_char_cons in Hl as [Hc Hl].
    change (readlines_from cur (String c (l +:+ String newline rest))
            = (cur +:+ String c (l +:+ nl)) :: readlines_from EmptyString rest).
    cbn [readlines_from]. rewrite decide_False by done.
    rewrite (IH _ Hl). f_equal.
    apply (append_assoc cur (String c EmptyString) (l +:+ nl)).
Qed.

Lemma readlines_file_of_lines (ls : list string) :
  Forall (no_char newline) ls →
  readlines (file_of_lines ls) = (λ l, l +:+ nl) <$> ls.
Proof.
  unfold readlines. induction ls as [|l ls IH]; intros Hls; [done|].
  apply Forall_cons in Hls as [Hl Hls].
  change (file_of_lines (l :: ls)) with (l +:+ String newline (file_of_lines ls)).
  rewrite readlines_from_line by done. rewrite (IH Hls). done.
Qed.

Lemma rstrip_snoc c s : rstrip c (s +:+ String c EmptyString) = rstrip c s.
Proof.
  induction s as [|a s IH].
  - simpl. by rewrite decide_True.
  - change (rstrip c (String a (s +:+ String c EmptyString)) = rstrip c (String a s)).
    cbn [rstrip]. by rewrite IH.
Qed.

Lemma rstrip_no_char c s : no_char c s → rstrip c s = s.
Proof.
  induction s as [|a s IH]; [done|].
  rewrite no_char_cons. intros [Ha Hs]. cbn [rstrip]. rewrite (IH Hs).
  destruct s; [by rewrite decide_False|done].
Qed.

Lemma lstrip_no_char c s : no_char c s → lstrip c s = s.
Proof.
  destruct s as [|a s]; [done|]. rewrite no_char_cons. intros [Ha _].
  cbn [lstrip]. by rewrite decide_False.
Qed.

Lemma strip_line c s : no_char c s → strip c (s +:+ String c EmptyString) = s.
Proof.
  intros Hs. unfold strip. destruct s as [|a s].
  - simpl. by rewrite decide_True.
  - pose proof Hs as [Ha _]%no_char_cons.
    change (String a s +:+ String c EmptyString)
      with (String a (s +:+ String c EmptyString)).
    cbn [lstrip]. rewrite decide_False by done.
    change (String a (s +:+ String c EmptyString))
      with (String a s +:+ String c EmptyString).
    rewrite rstrip_snoc. by apply rstrip_no_char.
Qed.

Lemma strip_no_char c s : no_char c s → strip c s = s.
Proof.
  intros Hs. unfold strip. rewrite lstrip_no_char by done.
  by apply rstrip_no_char.
Qed.

Lemma clean_line_written (l : string) :
  l = EmptyString ∨ plain_line l → CustomDataset.clean_line (l +:+ nl) = l.
Proof.
  intros [->|(Hnl & _ & _ & Hclean)]; [reflexivity|].
  transitivity (CustomDataset.clean_line l); [|done].
  unfold CustomDataset.clean_line. change nl with (String newline EmptyString).
  by rewrite (strip_line newline l Hnl), (strip_no_char newline l Hnl).
Qed.

Lemma universal_newlines_id (s : string) :
  no_char carriage_return s → universal_newlines s = s.
Proof.
  induction s as [|c s IH]; [done|].
  rewrite no_char_cons. intros [Hc Hs]. cbn [universal_newlines].
  rewrite decide_False by done. by rewrite (IH Hs).
Qed.

Lemma file_of_lines_no_char (c : ascii) (ls : list string) :
  c ≠ newline → Forall (no_char c) ls → no_char c (file_of_lines ls).
Proof.
  intros Hc. induction ls as [|l ls IH]; intros Hls.
  - unfold no_char. simpl. apply not_elem_of_nil.
  - apply Forall_cons in Hls as [Hl Hls].
    change (file_of_lines (l :: ls)) with (l +:+ String newline (file_of_lines ls)).
    assert (∀ a b, no_char c a → no_char c b → no_char c (a +:+ b)) as Happ.
    { intros a b Ha Hb. induction a as [|x a IHa]; [done|].
      apply no_char_cons in Ha as [Hx Ha].
      change (String x a +:+ b) with (String x (a +:+ b)).
      apply no_char_cons. split; [done|by apply IHa]. }
    apply Happ; [done|]. apply no_char_cons. split; [done|by apply IH].
Qed.

(** X14. Reading back, in text mode, the file that [write_to_file] wrote
    for a table whose rows have at least one corpus line each, all of them
    plain (without newline or carriage return, not made of NUL characters
    only, unchanged by the clean-up), returns the tag-sequences of all rows
    but the first, in table order: the first row comes before the first
    blank line of the file and is not returned. *)
Theorem read_data_of_written_file (df_data : list Row) :
  Forall (λ r, conll_label r ≠ [] ∧ Forall plain_line (conll_label r)) df_data →
  CustomDataset.read_data (universal_newlines (NERDataModule.write_to_file df_data))
  = tail (conll_label <$> df_data).
Proof.
  intros Hrows. unfold CustomDataset.read_data.
  rewrite write_to_file_lines.
  assert (Forall (λ l, l = EmptyString ∨ plain_line l)
            (concat (lines_of_row <$> df_data))) as Hlines.
  { apply Forall_concat, Forall_fmap, Forall_forall. intros r Hr. simpl.
    rewrite Forall_forall in Hrows. destruct (Hrows r Hr) as [Hne Hplain].
    unfold lines_of_row. destruct (conll_label r) as [|l ls]; [done|].
    apply Forall_app. split; [|by repeat constructor].
    eapply Forall_impl; [exact Hplain|]. intros x Hx. by right. }
  rewrite universal_newlines_id.
  2:{ apply file_of_lines_no_char; [done|].
      eapply Forall_impl; [exact Hlines|]. intros l [->|(_ & Hl & _)]; [|done].
      unfold no_char. simpl. apply not_elem_of_nil. }
  rewrite readlines_file_of_lines.
  2:{ eapply Forall_impl; [exact Hlines|]. intros l [->|(Hl & _)]; [|done].
      unfold no_char. simpl. apply not_elem_of_nil. }
  rewrite <- list_fmap_compose.
  rewrite (list_fmap_ext _ id (concat (lines_of_row <$> df_data))).
  2:{ intros i l Hl. simpl. apply clean_line_written.
      rewrite Forall_lookup in Hlines. by apply (Hlines i). }
  rewrite list_fmap_id.
  destruct df_data as [|r rows]; [done|].
  apply Forall_cons in Hrows as [[Hne Hplain] Hrows].
  assert (concat (lines_of_row <$> r :: rows)
          = corpus_lines (conll_label r) (conll_label <$> rows) []) as ->.
  { unfold corpus_lines. rewrite fmap_cons, concat_cons, app_nil_r.
    unfold lines_of_row at 1. destruct (conll_label r) as [|l ls]; [done|].
    rewrite <- app_assoc. simpl. do 3 f_equal.
    rewrite <- list_fmap_compose. f_equal. apply list_fmap_ext.
    intros i r' Hr'. simpl. unfold lines_of_row.
    rewrite Forall_lookup in Hrows. destruct (Hrows i r' Hr') as [Hne' _].
    by destruct (conll_label r'). }
  rewrite read_records_between_blank_lines.
  - simpl. by destruct (conll_label r).
  - eapply Forall_impl; [exact Hplain|]. by intros x (_ & _ & ? & _).
  - apply Forall_fmap, Forall_forall. intros r' Hr'. simpl.
    rewrite Forall_forall in Hrows. destruct (Hrows r' Hr') as [_ Hp].
    eapply Forall_impl; [exact Hp|]. by intros x (_ & _ & ? & _).
  - constructor.
Qed.

Lemma read_data_of_written_file_witness :
  CustomDataset.read_data
    (universal_newlines
       (NERDataModule.write_to_file
          [ {| source := Some "a";
               conll_label := ["John B-PERSON"; "Smith I-PERSON"] |};
            {| source := None; conll_label := ["Jane B-PERSON"] |};
            {| source := Some "b";
               conll_label := ["in O"; "Hanoi B-LOCATION"] |} ]))
  = [["Jane B-PERSON"]; ["in O"; "Hanoi B-LOCATION"]].
Proof.
  apply (read_data_of_written_file
           [ {| source := Some "a"; conll_label := ["John B-PERSON"; "Smith I-PERSON"] |};
             {| source := None; conll_label := ["Jane B-PERSON"] |};
             {| source := Some "b"; conll_label := ["in O"; "Hanoi B-LOCATION"] |} ]).
  apply (bool_decide_unpack _). vm_compute. exact I.
Defined.

(** ** The diagnostic counter of the alignment walk *)

Lemma foldl_align_count tag2id labels label_all_tokens wids st :
  CustomDataset.count
    (foldl (CustomDataset.align_step tag2id labels label_all_tokens) st wids)
  ≤ CustomDataset.count st + length (filter (λ x : option nat, is_Some x) wids) ∧
  ((∀ w, Some w ∈ wids → succeeds (CustomDataset.tag_id tag2id labels w)) →
   CustomDataset.count
     (foldl (CustomDataset.align_step tag2id labels label_all_tokens) st wids)
   = CustomDataset.count st).
Proof.
  revert st. induction wids as [|word_idx rest IH]; intros st.
  - simpl. split; [lia|done].
  - cbn [foldl]. destruct (IH (CustomDataset.align_step tag2id labels
                                 label_all_tokens st word_idx)) as [Hle Hzero].
    rewrite filter_cons.
    assert (CustomDataset.count
              (CustomDataset.align_step tag2id labels label_all_tokens st word_idx)
            ≤ CustomDataset.count st
                + match word_idx with Some _ => 1 | None => 0 end ∧
            ((∀ w, word_idx = Some w →
                   succeeds (CustomDataset.tag_id tag2id labels w)) →
             CustomDataset.count
               (CustomDataset.align_step tag2id labels label_all_tokens st word_idx)
             = CustomDataset.count st)) as [Hstep Hstep0].
    { unfold CustomDataset.align_step.
      destruct word_idx as [w|]; simpl; [|split; [lia|done]].
      destruct (decide (Some w ≠ CustomDataset.previous_word_idx st)).
      - destruct (CustomDataset.tag_id tag2id labels w) as [id|e] eqn:Hid;
          simpl; split; try lia; try done.
        intros Hok. destruct (Hok w eq_refl) as [? ?]. congruence.
      - destruct label_all_tokens; simpl; [|split; [lia|done]].
        destruct (CustomDataset.tag_id tag2id labels w) as [id|e] eqn:Hid;
          simpl; split; try lia; try done.
        intros Hok. destruct (Hok w eq_refl) as [? ?]. congruence. }
    split.
    + destruct word_idx as [w|].
      * rewrite decide_True by done. cbn [length]. lia.
      * rewrite decide_False by (by intros [? ?]). lia.
    + intros Hok. rewrite Hzero.
      * apply Hstep0. intros w ->. apply Hok. by left.
      * intros w Hw. apply Hok. by right.
Qed.

(** X15. The counter of failed tag lookups that the walk keeps is at most
    the number of positions attributed to a word (special and padding
    positions are never counted), and it stays 0 when the tag lookup
    succeeds for every word index the tokenizer returned. *)
Theorem diagnostic_count_bounds (tag2id : gmap string nat) (labels : list string)
    (label_all_tokens : bool) (wids : list (option nat)) :
  CustomDataset.count (CustomDataset.align tag2id labels label_all_tokens wids)
  ≤ length (filter (λ x : option nat, is_Some x) wids) ∧
  ((∀ w, Some w ∈ wids → succeeds (CustomDataset.tag_id tag2id labels w)) →
   CustomDataset.count (CustomDataset.align tag2id labels label_all_tokens wids)
   = 0).
Proof.
  unfold CustomDataset.align.
  destruct (foldl_align_count tag2id labels label_all_tokens wids
              CustomDataset.align_init) as [Hle Hzero].
  split; [exact Hle|]. intros Hok. by rewrite Hzero.
Qed.

Lemma diagnostic_count_bounds_witness :
  CustomDataset.count
    (CustomDataset.align (CustomDataset.build_tag2id ["B-PERSON"; "I-PERSON"; "O"])
       ["B-PERSON"; "I-PERSON"] false (word_ids (char_tokenizer "Jo Sm" 8)))
  = 0.
Proof.
  apply (diagnostic_count_bounds
           (CustomDataset.build_tag2id ["B-PERSON"; "I-PERSON"; "O"])
           ["B-PERSON"; "I-PERSON"] false (word_ids (char_tokenizer "Jo Sm" 8))).
  set (wids := word_ids _). vm_compute in wids. subst wids.
  intros w Hw.
  assert (w = 0 ∨ w = 1) as [-> | ->].
  { repeat (apply elem_of_cons in Hw as [Hw|Hw]; [simplify_eq; auto|]).
    by apply elem_of_nil in Hw. }
  - eexists. vm_compute. reflexivity.
  - eexists. vm_compute. reflexivity.
Defined.

(** ** The split stage *)

(** X16. When val_size + test_size = 0, [prepare_dataset] fails: if the
    table is loaded and the first split goes through, the relative size
    val_size / (val_size + test_size) of the second split is a division by
    zero. *)
Theorem prepare_dataset_fails_on_zero_sum
    (NERDataSet read_csv : string → result (list Row))
    (train_test_split : list Row → Q → Z → result (list Row * list Row))
    (merge_sentence : option Z) (val_size test_size : Q)
    (dataset_path output_dir data_format : string) (random_state : Z) :
  (val_size + test_size == 0)%Q →
  fails (NERDataModule.prepare_dataset NERDataSet read_csv train_test_split
           merge_sentence val_size test_size dataset_path output_dir
           data_format random_state).
Proof.
  intros Hsum. apply Qeq_bool_iff in Hsum.
  unfold NERDataModule.prepare_dataset.
  match goal with
  | |- fails (mbind _ ?loaded) => destruct loaded as [[df|]|e]
  end; simpl; [| |by exists e].
  - destruct merge_sentence as [M|]; simpl.
    + destruct (NERDataModule.merge_rows M df) as [new|e]; simpl; [|by exists e].
      destruct (train_test_split _ _ _) as [[df_train df_rest]|e]; simpl;
        [|by exists e].
      rewrite Hsum. by exists ZeroDivisionError.
    + destruct (train_test_split _ _ _) as [[df_train df_rest]|e]; simpl;
        [|by exists e].
      rewrite Hsum. by exists ZeroDivisionError.
  - destruct merge_sentence; by exists TypeError.
Qed.

Lemma prepare_dataset_fails_on_zero_sum_witness :
  fails (NERDataModule.prepare_dataset
           (λ _, Raise IOError)
           (λ _, Ok (four_rows ["x O"] ["y O"] ["z O"] ["w O"]))
           (λ df _ _, Ok (take 2 df, drop 2 df)) None 0 0 "all.csv" "out" "csv" 41%Z).
Proof.
  apply (prepare_dataset_fails_on_zero_sum
           (λ _, Raise IOError)
           (λ _, Ok (four_rows ["x O"] ["y O"] ["z O"] ["w O"]))
           (λ df _ _, Ok (take 2 df, drop 2 df)) None 0 0 "all.csv" "out" "csv" 41%Z).
  reflexivity.
Defined.

(** X17. When [prepare_dataset] succeeds, the format was one of the two
    supported ones, the table handed to the first split had no missing
    source, the first split was made at fraction 1 - val_size - test_size
    with the caller's seed and the second one on its remainder at fraction
    val_size / (val_size + test_size) with the seed 43, and exactly three
    files were written: train, validation, test, in this order, each the
    [write_to_file] text of its partition. *)
Theorem prepare_dataset_success_shape
    (NERDataSet read_csv : string → result (list Row))
    (train_test_split : list Row → Q → Z → result (list Row * list Row))
    (merge_sentence : option Z) (val_size test_size : Q)
    (dataset_path output_dir data_format : string) (random_state : Z)
    (files : list (string * string)) :
  NERDataModule.prepare_dataset NERDataSet read_csv train_test_split
    merge_sentence val_size test_size dataset_path output_dir
    data_format random_state = Ok files →
  (data_format = "doccano" ∨ data_format = "csv") ∧
  ¬ (val_size + test_size == 0)%Q ∧
  ∃ df df_train df_rest df_val df_test,
    Forall (λ r, source r ≠ None) df ∧
    train_test_split df (1 - val_size - test_size)%Q random_state
      = Ok (df_train, df_rest) ∧
    train_test_split df_rest (val_size / (val_size + test_size))%Q 43%Z
      = Ok (df_val, df_test) ∧
    files.*2 = [NERDataModule.write_to_file df_train;
                NERDataModule.write_to_file df_val;
                NERDataModule.write_to_file df_test].
Proof.
  unfold NERDataModule.prepare_dataset. intros Hrun.
  assert (data_format = "doccano" ∨ data_format = "csv") as Hfmt.
  { destruct (decide (data_format = "doccano")); [by left|].
    destruct (decide (data_format = "csv")); [by right|].
    simpl in Hrun. by destruct merge_sentence. }
  split; [done|].
  match type of Hrun with
  | mbind _ ?loaded = _ => destruct loaded as [[df0|]|e]
  end; simpl in Hrun; [| |done].
  2:{ by destruct merge_sentence. }
  assert (∃ df1, (match merge_sentence with
                  | Some M => new ← NERDataModule.merge_rows M df0; Ok (Some new)
                  | None => Ok (Some df0)
                  end) = Ok (Some df1)) as [df1 Hdf1].
  { destruct merge_sentence as [M|]; [|by eexists].
    destruct (NERDataModule.merge_rows M df0); [by eexists|done]. }
  rewrite Hdf1 in Hrun. simpl in Hrun.
  destruct (train_test_split (NERDataModule.fillna_source df1) _ _)
    as [[df_train df_rest]|e] eqn:Hsplit1; simpl in Hrun; [|done].
  destruct (Qeq_bool (val_size + test_size) 0) eqn:Hzero; simpl in Hrun; [done|].
  destruct (train_test_split df_rest _ _) as [[df_val df_test]|e] eqn:Hsplit2;
    simpl in Hrun; [|done].
  injection Hrun as <-. split.
  - intros Hq. apply Qeq_bool_iff in Hq. congruence.
  - exists (NERDataModule.fillna_source df1), df_train, df_rest, df_val, df_test.
    split; [|done].
    unfold NERDataModule.fillna_source. apply Forall_fmap, Forall_forall.
    intros r _. done.
Qed.

Lemma prepare_dataset_success_shape_witness :
  ("csv" = "doccano" ∨ "csv" = "csv") ∧
  ¬ ((1 # 4) + (1 # 4) == 0)%Q ∧
  ∃ df df_train df_rest df_val df_test,
    Forall (λ r, source r ≠ None) df ∧
    prefix_split df (1 - (1 # 4) - (1 # 4))%Q 41%Z = Ok (df_train, df_rest) ∧
    prefix_split df_rest ((1 # 4) / ((1 # 4) + (1 # 4)))%Q 43%Z
      = Ok (df_val, df_test) ∧
    [file_of_lines ["x O"; ""; "y O"; ""]; file_of_lines ["z O"; ""];
     file_of_lines ["w O"; ""]]
    = [NERDataModule.write_to_file df_train;
       NERDataModule.write_to_file df_val;
       NERDataModule.write_to_file df_test].
Proof.
  apply (prepare_dataset_success_shape
           (λ _, Raise IOError)
           (λ _, Ok (four_rows ["x O"] ["y O"] ["z O"] ["w O"]))
           prefix_split None (1 # 4) (1 # 4) "all.csv" "out" "csv" 41%Z
           [("out/train_data_old.txt", file_of_lines ["x O"; ""; "y O"; ""]);
            ("out/val_data_old.txt", file_of_lines ["z O"; ""]);
            ("out/test_data_old.txt", file_of_lines ["w O"; ""])]).
  vm_compute. reflexivity.
Defined.

(** ** The clean-up of a line *)

Lemma no_char_nil c : no_char c EmptyString.
Proof. unfold no_char. simpl. apply not_elem_of_nil. Qed.

Lemma no_char_app c a b : no_char c (a +:+ b) ↔ no_char c a ∧ no_char c b.
Proof.
  induction a as [|x a IH].
  - split; [intros Hb; split; [apply no_char_nil|done]|by intros [_ ?]].
  - change (String x a +:+ b) with (String x (a +:+ b)).
    rewrite !no_char_cons, IH. tauto.
Qed.

Lemma replace_from_keeps_no_char c old new k s :
  no_char c new → no_char c s → no_char c (replace_from old new k s).
Proof.
  intros Hnew. revert k. induction s as [|a s IH]; intros k Hs; [done|].
  apply no_char_cons in Hs as [Ha Hs]. cbn [replace_from].
  destruct k as [|k]; [|by apply IH].
  destruct (starts_with old (String a s)).
  - apply no_char_app. split; [done|by apply IH].
  - apply no_char_cons. split; [done|by apply IH].
Qed.

Lemma replace_from_char_gone c new k s :
  no_char c new → no_char c (replace_from (String c EmptyString) new k s).
Proof.
  intros Hnew. revert k. induction s as [|a s IH]; intros k;
    [apply no_char_nil|].
  cbn [replace_from]. destruct k as [|k]; [|apply IH].
  destruct (starts_with (String c EmptyString) (String a s)) eqn:Hstart.
  - apply no_char_app. split; [done|apply IH].
  - apply no_char_cons. split; [|apply IH].
    intros ->. simpl in Hstart. by rewrite bool_decide_eq_true_2 in Hstart.
Qed.

(** X18. A cleaned line holds no tab: every tab of the line is turned into
    a space, and the later rewritings bring none back, so the fields of a
    cleaned line are separated by spaces only. *)
Theorem clean_line_has_no_tab (line : string) :
  no_char tab (CustomDataset.clean_line line).
Proof.
  unfold CustomDataset.clean_line, replace.
  assert (no_char tab "O") as HO by (apply (bool_decide_unpack _); by vm_compute).
  do 2 (apply replace_from_keeps_no_char; [done|]).
  apply replace_from_char_gone.
  apply (bool_decide_unpack _). by vm_compute.
Qed.

Lemma replace_absent a p new s :
  no_char a s → replace (String a p) new s = s.
Proof.
  unfold replace. induction s as [|x s IH]; [done|].
  rewrite no_char_cons. intros [Hx Hs]. cbn [replace_from starts_with].
  rewrite bool_decide_eq_false_2 by congruence. simpl. by rewrite (IH Hs).
Qed.

Lemma replace_char_at c new u v :
  no_char c u →
  replace (String c EmptyString) new (u +:+ String c v)
  = u +:+ new +:+ replace (String c EmptyString) new v.
Proof.
  unfold replace. induction u as [|x u IH].
  - intros _. change (EmptyString +:+ String c v) with (String c v).
    cbn [replace_from starts_with]. by rewrite bool_decide_eq_true_2.
  - rewrite no_char_cons. intros [Hx Hu].
    change (String x u +:+ String c v) with (String x (u +:+ String c v)).
    cbn [replace_from starts_with].
    rewrite bool_decide_eq_false_2 by congruence. simpl. by rewrite (IH Hu).
Qed.

Lemma replace_skip_prefix a h p new u rest :
  no_char h u → (∀ r, rest ≠ String h r) →
  replace (String a (String h p)) new (u +:+ rest)
  = u +:+ replace (String a (String h p)) new rest.
Proof.
  unfold replace. intros Hu Hrest. induction u as [|x u IH]; [done|].
  apply no_char_cons in Hu as [Hx Hu].
  change (String x u +:+ rest) with (String x (u +:+ rest)).
  cbn [replace_from].
  assert (starts_with (String a (String h p)) (String x (u +:+ rest)) = false)
    as ->.
  { cbn [starts_with]. apply andb_false_iff. right.
    destruct u as [|y u].
    - change (EmptyString +:+ rest) with rest.
      destruct rest as [|r0 rest]; [done|]. cbn [starts_with].
      apply andb_false_iff. left. apply bool_decide_eq_false_2.
      intros ->. by apply (Hrest rest).
    - change (String y u +:+ rest) with (String y (u +:+ rest)).
      cbn [starts_with]. apply andb_false_iff. left.
      apply bool_decide_eq_false_2. intros ->.
      by apply no_char_cons in Hu as [? _]. }
  rewrite (IH Hu). done.
Qed.

(** X19. A line made of a word without hyphen, tab or newline, one space or
    tab, and the tag B-MISCELLANEOUS or I-MISCELLANEOUS is cleaned into the
    word, one space, and the tag O. *)
Theorem miscellaneous_tag_is_read_as_O (w : string) (sep : ascii) (tag : string) :
  no_char "-"%char w → no_char tab w → no_char newline w →
  sep = space ∨ sep = tab →
  tag = "B-MISCELLANEOUS" ∨ tag = "I-MISCELLANEOUS" →
  CustomDataset.clean_line ((w +:+ String sep tag) +:+ nl) = w +:+ " O".
Proof.
  intros Hhy Htab Hnl Hsep Htag. unfold CustomDataset.clean_line.
  assert (no_char newline tag ∧ no_char tab tag) as [Htag_nl Htag_tab].
  { split; destruct Htag as [-> | ->];
      apply (bool_decide_unpack _); by vm_compute. }
  change nl with (String newline EmptyString).
  rewrite strip_line.
  2:{ apply no_char_app. split; [done|]. apply no_char_cons. split; [|done].
      destruct Hsep as [-> | ->]; by vm_compute. }
  assert (replace (String tab EmptyString) (String space EmptyString)
            (w +:+ String sep tag) = (w +:+ " ") +:+ tag) as ->.
  { destruct Hsep as [-> | ->].
    - rewrite replace_absent.
      + by rewrite append_assoc.
      + apply no_char_app. split; [done|]. apply no_char_cons.
        split; [by vm_compute|done].
    - rewrite replace_char_at by done.
      rewrite (replace_absent tab EmptyString _ tag) by done.
      by rewrite append_assoc. }
  assert (no_char "-"%char (w +:+ " ")) as Hu.
  { apply no_char_app. split; [done|]. apply (bool_decide_unpack _). by vm_compute. }
  rewrite (replace_skip_prefix "B" "-" "MISCELLANEOUS" "O" (w +:+ " ") tag Hu).
  2:{ intros r. destruct Htag as [-> | ->]; discriminate. }
  destruct Htag as [-> | ->].
  - change (replace "B-MISCELLANEOUS" "O" "B-MISCELLANEOUS") with "O".
    rewrite (replace_skip_prefix "I" "-" "MISCELLANEOUS" "O" (w +:+ " ") "O" Hu)
      by discriminate.
    change (replace "I-MISCELLANEOUS" "O" "O") with "O".
    by rewrite append_assoc.
  - change (replace "B-MISCELLANEOUS" "O" "I-MISCELLANEOUS")
      with "I-MISCELLANEOUS".
    rewrite (replace_skip_prefix "I" "-" "MISCELLANEOUS" "O" (w +:+ " ")
               "I-MISCELLANEOUS" Hu) by discriminate.
    change (replace "I-MISCELLANEOUS" "O" "I-MISCELLANEOUS") with "O".
    by rewrite append_assoc.
Qed.

Lemma miscellaneous_tag_is_read_as_O_witness :
  CustomDataset.clean_line (("Hanoi" +:+ String tab "I-MISCELLANEOUS") +:+ nl)
  = "Hanoi" +:+ " O".
Proof.
  apply (miscellaneous_tag_is_read_as_O "Hanoi" tab "I-MISCELLANEOUS").
  - apply (bool_decide_unpack _). vm_compute. exact I.
  - apply (bool_decide_unpack _). vm_compute. exact I.
  - apply (bool_decide_unpack _). vm_compute. exact I.
  - right. reflexivity.
  - right. reflexivity.
Defined.

(** ** Concrete runs *)

Example readlines_example :
  readlines (file_of_lines ["a b"; ""; "c"]) = ["a b" +:+ nl; nl; "c" +:+ nl].
Proof. reflexivity. Qed.

Example split_example :
  split space "New York B-LOC" = ["New"; "York"; "B-LOC"].
Proof. reflexivity. Qed.

Example clean_example :
  CustomDataset.clean_line ("x" +:+ String tab "" +:+ "B-MISCELLANEOUS" +:+ nl)
  = "x O".
Proof. reflexivity. Qed.

Example align_first_subword_only :
  CustomDataset._tokenize_and_align_labels char_tokenizer
    (CustomDataset.build_tag2id ["B-PERSON"; "I-PERSON"; "O"]) 8 false
    ["Jo B-PERSON"; "Sm I-PERSON"]
  = Ok {| ex_input_ids := [0; 77; 114; 86; 112; 2; 1; 1]%Z;
          ex_attention_mask := [1; 1; 1; 1; 1; 1; 0; 0]%Z;
          ex_labels := [-100; 0; -100; 1; -100; -100; -100; -100]%Z |}.
Proof. by vm_compute. Qed.

Example align_all_subwords :
  CustomDataset._tokenize_and_align_labels char_tokenizer
    (CustomDataset.build_tag2id ["B-PERSON"; "I-PERSON"; "O"]) 5 true
    ["Jo B-PERSON"; "Sm I-PERSON"]
  = Ok {| ex_input_ids := [0; 77; 114; 86; 2]%Z;
          ex_attention_mask := [1; 1; 1; 1; 1]%Z;
          ex_labels := [-100; 0; 0; 1; -100]%Z |}.
Proof. by vm_compute. Qed.

Example merge_five_rows_by_two :
  NERDataModule.merge_rows 2
    (four_rows ["x O"] ["y O"] ["z O"] ["w O"]
       ++ [ {| source := None; conll_label := ["v O"] |} ])
  = Ok [ {| source := Some "a"; conll_label := ["x O"; "y O"] |};
         {| source := Some "b"; conll_label := ["z O"; "w O"] |} ].
Proof. reflexivity. Qed.
